(** * PortalsFS: the virtual file system of the Power Pages web extension

    A shallow embedding of [src/web/client/dal/fileSystemProvider.ts]
    (classes [File], [Directory], [PortalsFS]) and of the part of the
    remote fetch provider that the integration tests pin down.

    Conventions.
    - A JavaScript [Map] iterates in insertion order and [readDirectory]
      exposes that order, so [Directory.entries] is an association list
      with the [Map] update discipline ([map_set] overwrites in place or
      appends).  The per-file metadata map of the extension context is
      only ever looked up by key and is a [gmap].
    - The provider mutates the tree in place through object references.
      The embedding rebuilds the tree along the path that the source used
      to reach the object ([update_at]).
    - [async] methods are computations in a state monad whose state
      survives a thrown error, as JavaScript heap mutations do. *)

From Stdlib Require Import ZArith Ascii String List Bool Lia.
From stdpp Require Import base option strings list gmap.

Local Open Scope Z_scope.
Local Open Scope string_scope.
Local Open Scope list_scope.

Set Warnings "-register-all".

(** ** Strings and POSIX paths *)

Module Path.

Definition slash : ascii := "/"%char.

Definition is_slash (c : ascii) : bool := Ascii.eqb c slash.

(** [s.split("/")] on the characters of [s]: the result is never empty,
    [""] splits to [[""]], and consecutive separators give empty parts. *)
Fixpoint split_chars (l : list ascii) : list (list ascii) :=
  match l with
  | [] => [[]]
  | c :: r =>
      if is_slash c then [] :: split_chars r
      else match split_chars r with
           | h :: t => (c :: h) :: t
           | [] => [[c]]
           end
  end.

Definition split (s : string) : list string :=
  map string_of_list_ascii (split_chars (list_ascii_of_string s)).

(** JavaScript truthiness of a string: [!part] holds for [""] only. *)
Definition falsy (s : string) : bool :=
  match s with EmptyString => true | _ => false end.

Definition nonempty_chars (l : list ascii) : bool :=
  match l with [] => false | _ => true end.

(** The parts that [_lookup] does not skip. *)
Definition segments_chars (l : list ascii) : list (list ascii) :=
  List.filter nonempty_chars (split_chars l).

Definition segments (s : string) : list string :=
  List.filter (fun p => negb (falsy p)) (split s).

Fixpoint drop_while {A} (p : A -> bool) (l : list A) : list A :=
  match l with
  | [] => []
  | x :: r => if p x then drop_while p r else l
  end.

Fixpoint take_while {A} (p : A -> bool) (l : list A) : list A :=
  match l with
  | [] => []
  | x :: r => if p x then x :: take_while p r else []
  end.

Definition not_slash (c : ascii) : bool := negb (is_slash c).

(** [path.posix.basename(p)] (Node's algorithm, one argument): scanning
    from the end, skip the trailing separators, then collect the
    characters up to the next separator. *)
Definition basename_chars (l : list ascii) : list ascii :=
  rev (take_while not_slash (drop_while is_slash (rev l))).

Definition basename (p : string) : string :=
  string_of_list_ascii (basename_chars (list_ascii_of_string p)).

(** [path.posix.dirname(p)] (Node's algorithm).  The scan runs over the
    indices [len-1 .. 1]: skip trailing separators, skip the last name,
    and cut at the separator found ([end]); index 0 only decides
    [hasRoot]. *)
Definition dirname_chars (l : list ascii) : list ascii :=
  match l with
  | [] => ["."%char]
  | c0 :: t =>
      match drop_while not_slash (drop_while is_slash (rev t)) with
      | [] => if is_slash c0 then [slash] else ["."%char]
      | _ :: before =>
          if is_slash c0 && negb (nonempty_chars before)
          then [slash; slash]
          else c0 :: rev before
      end
  end.

Definition dirname (p : string) : string :=
  string_of_list_ascii (dirname_chars (list_ascii_of_string p)).

Definition is_absolute (p : string) : bool :=
  match p with String c _ => is_slash c | EmptyString => false end.

(** [haystack.includes(needle)] *)
Fixpoint includes (haystack needle : string) : bool :=
  String.prefix needle haystack ||
  match haystack with
  | EmptyString => false
  | String _ rest => includes rest needle
  end.

End Path.

(** ** Data model *)

(** [vscode.FileType] *)
Inductive FileType := Unknown | FileT | DirectoryT | SymbolicLink.

(** [File] and [Directory] of the source; [Entry = File | Directory].
    The [type] field is fixed by the constructor and is the function
    [type] below. *)
Inductive Entry :=
| File (name : string) (ctime mtime size : Z) (data : list Byte.byte)
| Directory (name : string) (ctime mtime size : Z)
    (entries : list (string * Entry)).

Definition type (e : Entry) : FileType :=
  match e with File _ _ _ _ _ => FileT | Directory _ _ _ _ _ => DirectoryT end.

Definition name (e : Entry) : string :=
  match e with File n _ _ _ _ => n | Directory n _ _ _ _ => n end.

Definition ctime (e : Entry) : Z :=
  match e with File _ c _ _ _ => c | Directory _ c _ _ _ => c end.

Definition mtime (e : Entry) : Z :=
  match e with File _ _ m _ _ => m | Directory _ _ m _ _ => m end.

Definition size (e : Entry) : Z :=
  match e with File _ _ _ s _ => s | Directory _ _ _ s _ => s end.

Definition data (e : Entry) : list Byte.byte :=
  match e with File _ _ _ _ d => d | Directory _ _ _ _ _ => [] end.

Definition entries (e : Entry) : list (string * Entry) :=
  match e with File _ _ _ _ _ => [] | Directory _ _ _ _ es => es end.

(** [e instanceof Directory], [e instanceof File] *)
Definition isDirectory (e : Entry) : bool :=
  match e with Directory _ _ _ _ _ => true | File _ _ _ _ _ => false end.

Definition isFile (e : Entry) : bool := negb (isDirectory e).

(** The [vscode.FileStat] view of an entry. *)
Record FileStat := mkFileStat
  { stat_type : FileType; stat_ctime : Z; stat_mtime : Z; stat_size : Z }.

Definition stat_of (e : Entry) : FileStat :=
  mkFileStat (type e) (ctime e) (mtime e) (size e).

(** *** JavaScript [Map] with string keys, in insertion order *)

Section JsMap.
Context {A : Type}.

(** [m.get(k)] *)
Fixpoint map_get (m : list (string * A)) (k : string) : option A :=
  match m with
  | [] => None
  | (k', v) :: r => if String.eqb k k' then Some v else map_get r k
  end.

(** [m.set(k, v)]: an existing key keeps its position. *)
Fixpoint map_set (m : list (string * A)) (k : string) (v : A)
  : list (string * A) :=
  match m with
  | [] => [(k, v)]
  | (k', v') :: r =>
      if String.eqb k k' then (k, v) :: r else (k', v') :: map_set r k v
  end.

(** Mutation of the object stored under [k], if any. *)
Fixpoint map_adjust (k : string) (f : A -> A) (m : list (string * A))
  : list (string * A) :=
  match m with
  | [] => []
  | (k', v) :: r =>
      if String.eqb k k' then (k', f v) :: r
      else (k', v) :: map_adjust k f r
  end.
End JsMap.

(** *** URIs, change events, errors *)

Record Uri := mkUri
  { scheme : string; authority : string; path : string;
    query : string; fragment : string }.

(** [uri.with({ path: p })] *)
Definition with_path (uri : Uri) (p : string) : Uri :=
  mkUri (scheme uri) (authority uri) p (query uri) (fragment uri).

(** [vscode.FileChangeType] *)
Inductive FileChangeType := Changed | Created | Deleted.

Record FileChangeEvent := mkEvent
  { event_type : FileChangeType; event_uri : Uri }.

(** What the provider throws: the [vscode.FileSystemError] factories it
    uses, and plain [Error(message)] (also used for failures of the
    collaborators). *)
Inductive Error :=
| FileNotFound
| FileIsADirectory (uri : Uri)
| FileNotADirectory (uri : Uri)
| FileExists (uri : Uri)
| JsError (message : string).

(** [error.code] of a [FileSystemError]; a plain [Error] has none. *)
Definition code (e : Error) : option string :=
  match e with
  | FileNotFound => Some "FileNotFound"
  | FileIsADirectory _ => Some "FileIsADirectory"
  | FileNotADirectory _ => Some "FileNotADirectory"
  | FileExists _ => Some "FileExists"
  | JsError _ => None
  end.

(** [castedError.code === vscode.FileSystemError.FileNotFound.name] *)
Definition isFileNotFound (e : Error) : bool :=
  match code e with
  | Some c => String.eqb c "FileNotFound"
  | None => false
  end.

(** *** Extension context *)

(** The fields of [FileData] that the provider reads. *)
Record FileData := mkFileData
  { entityId : string; entityName : string; hasDirtyChanges : bool }.

(** The part of the [WebExtensionContext] singleton that the provider
    touches. *)
Record Context := mkContext
  { isContextSet : bool;
    rootDirectory : Uri;
    fileDataMap : gmap string FileData;
    urlParametersMap : gmap string string;
    dataverseAccessToken : string }.

(** [telemetryEventNames] members sent by the provider's file operations. *)
Inductive telemetryEventNames :=
| WEB_EXTENSION_FETCH_DIRECTORY_TRIGGERED
| WEB_EXTENSION_FETCH_FILE_TRIGGERED
| WEB_EXTENSION_SAVE_FILE_TRIGGERED.

(** Calls that leave the provider, in the order they are made. *)
Inductive Call :=
| sendInfoTelemetry (eventName : telemetryEventNames)
| withProgress (title : string)
| reAuthenticateCall
| saveDataCall (accessToken requestUrl : string) (uri : Uri)
| showErrorDialog (message : string)
| loadFromDataverseCall.

(** The provider instance ([root], [_bufferedEvents]), the context
    singleton, the wall clock read by [Date.now()] (one value throughout
    a call), and the call trace.  The 5 ms timer of [_fireSoon] that
    hands [_bufferedEvents] to the emitter is not part of the state: an
    event counts as emitted once [_fireSoon] has buffered it. *)
Record State := mkState
  { root : Entry;
    _bufferedEvents : list FileChangeEvent;
    context : Context;
    clock : Z;
    trace : list Call }.

Definition set_root (r : Entry) (st : State) : State :=
  mkState r (_bufferedEvents st) (context st) (clock st) (trace st).

Definition set_context (c : Context) (st : State) : State :=
  mkState (root st) (_bufferedEvents st) c (clock st) (trace st).

Definition set_trace (t : list Call) (st : State) : State :=
  mkState (root st) (_bufferedEvents st) (context st) (clock st) t.

Definition push_events (evs : list FileChangeEvent) (st : State) : State :=
  mkState (root st) (_bufferedEvents st ++ evs) (context st) (clock st)
    (trace st).

(** ** Computations: state that survives a throw *)

Inductive Result (A : Type) :=
| Ok (a : A)
| Throw (e : Error).
Arguments Ok {A} a.
Arguments Throw {A} e.

Definition M (A : Type) : Type := State -> Result A * State.

Definition ret {A} (a : A) : M A := fun st => (Ok a, st).

Definition throw {A} (e : Error) : M A := fun st => (Throw e, st).

Definition bind {A B} (m : M A) (k : A -> M B) : M B :=
  fun st =>
    match m st with
    | (Ok a, st') => k a st'
    | (Throw e, st') => (Throw e, st')
    end.

(** [try { m } catch (error) { h error }] *)
Definition try_catch {A} (m : M A) (h : Error -> M A) : M A :=
  fun st =>
    match m st with
    | (Ok a, st') => (Ok a, st')
    | (Throw e, st') => h e st'
    end.

Definition get_state : M State := fun st => (Ok st, st).

Definition modify (f : State -> State) : M unit := fun st => (Ok tt, f st).

Definition call (c : Call) : M unit :=
  modify (fun st => set_trace (trace st ++ [c]) st).

Declare Scope vfs_scope.
Delimit Scope vfs_scope with vfs.
Notation "x <- m ;; k" := (bind m (fun x => k))
  (at level 100, m at next level, right associativity) : vfs_scope.
Notation "m ;; k" := (bind m (fun _ => k))
  (at level 100, right associativity) : vfs_scope.
Local Open Scope vfs_scope.

(** [Date.now()] *)
Definition Date_now : M Z := fun st => (Ok (clock st), st).

(** ** The tree walk of [_lookup] and in-place mutation *)

(** [entry instanceof Directory ? entry.entries.get(part) : undefined] *)
Definition child_of (entry : Entry) (part : string) : option Entry :=
  match entry with
  | Directory _ _ _ _ es => map_get es part
  | File _ _ _ _ _ => None
  end.

(** The [for (const part of parts)] loop of [_lookup], started at
    [entry]: empty parts are skipped, a missing child ends the loop with
    [FileNotFound] or, when [silent], with [undefined]. *)
Fixpoint _lookup_loop (silent : bool) (parts : list string) (entry : Entry)
  : Result (option Entry) :=
  match parts with
  | [] => Ok (Some entry)
  | part :: rest =>
      if Path.falsy part then _lookup_loop silent rest entry
      else match child_of entry part with
           | None => if silent then Ok None else Throw FileNotFound
           | Some child => _lookup_loop silent rest child
           end
  end.

(** The object that the walk along [parts] reaches, replaced by its
    mutated version [f]; nothing changes when the walk does not resolve. *)
Fixpoint update_at (parts : list string) (f : Entry -> Entry) (entry : Entry)
  : Entry :=
  match parts with
  | [] => f entry
  | part :: rest =>
      if Path.falsy part then update_at rest f entry
      else match entry with
           | Directory n c m s es =>
               Directory n c m s (map_adjust part (update_at rest f) es)
           | File _ _ _ _ _ => entry
           end
  end.

(** Truthiness and [instanceof Directory] of [parent.entries.get(k)]. *)
Definition defined (entry : option Entry) : bool :=
  match entry with Some _ => true | None => false end.

Definition instanceofDirectory (entry : option Entry) : bool :=
  match entry with Some e => isDirectory e | None => false end.

(** [dir.entries.set(k, e)] *)
Definition set_child (k : string) (e : Entry) (dir : Entry) : Entry :=
  match dir with
  | Directory n c m s es => Directory n c m s (map_set es k e)
  | File _ _ _ _ _ => dir
  end.

(** Mutation of the object [dir.entries.get(k)]. *)
Definition adjust_child (k : string) (f : Entry -> Entry) (dir : Entry)
  : Entry :=
  match dir with
  | Directory n c m s es => Directory n c m s (map_adjust k f es)
  | File _ _ _ _ _ => dir
  end.

(** [entry.mtime = now; entry.size = content.byteLength;
    entry.data = content] on a [File]. *)
Definition write_content (now : Z) (content : list Byte.byte) (entry : Entry)
  : Entry :=
  match entry with
  | File n c _ _ _ => File n c now (Z.of_nat (length content)) content
  | Directory _ _ _ _ _ => entry
  end.

(** [parent.entries.set(entry.name, entry); parent.mtime = Date.now();
    parent.size += 1] *)
Definition add_directory (now : Z) (entry : Entry) (parent : Entry) : Entry :=
  match parent with
  | Directory n c _ s es => Directory n c now (s + 1) (map_set es (name entry) entry)
  | File _ _ _ _ _ => parent
  end.

(** ** Collaborators outside the sources *)

Inductive httpMethod := GET | PATCH.

(** What the provider needs from the editor API ([toString], [fsPath],
    [toLowerCase]), from the URL builder ([pathHasEntityFolderName],
    [getRequestURL], the [ORG_URL] key), from the authentication
    provider ([freshToken]) and from the network ([patch]: [None] for an
    ok response, the status text otherwise).  [loadFromDataverse] stands
    for what [_loadFromDataverseToVFS] does (authenticate, create the
    site and entity folders, fetch every entity): its collaborators are
    outside the sources, so it is any function that rebuilds the tree and
    the context, or throws. *)
Record Host := mkHost
  { toString : Uri -> string;
    fsPath : Uri -> string;
    toLowerCase : string -> string;
    pathHasEntityFolderName : Context -> string -> bool;
    ORG_URL : string;
    getRequestURL :
      option string -> option string -> option string -> httpMethod -> bool ->
      string;
    freshToken : string -> string;
    patch : string -> string -> option string;
    loadFromDataverse : State -> Result unit * State }.

Section Provider.

Variable host : Host.

(** *** Lookup *)

Definition _lookup (uri : Uri) (silent : bool) : M (option Entry) :=
  fun st => (_lookup_loop silent (Path.split (path uri)) (root st), st).

Definition _lookupAsDirectory (uri : Uri) (silent : bool) : M Entry :=
  entry <- _lookup uri silent ;;
  match entry with
  | Some (Directory n c m s es) => ret (Directory n c m s es)
  | _ => throw (FileNotADirectory uri)
  end.

Definition _lookupAsFile (uri : Uri) (silent : bool) : M Entry :=
  entry <- _lookup uri silent ;;
  match entry with
  | Some (File n c m s d) => ret (File n c m s d)
  | _ => throw (FileIsADirectory uri)
  end.

Definition _lookupParentDirectory (uri : Uri) : M Entry :=
  let dirname := with_path uri (Path.dirname (path uri)) in
  _lookupAsDirectory dirname false.

(** Mutation of the object that [_lookup] reaches at [uri]. *)
Definition mutate (uri : Uri) (f : Entry -> Entry) : M unit :=
  modify (fun st => set_root (update_at (Path.split (path uri)) f (root st)) st).

Definition _fireSoon (events : list FileChangeEvent) : M unit :=
  modify (push_events events).

(** *** Dataverse calls *)

(** One load; what it does inside is not traced. *)
Definition _loadFromDataverseToVFS : M unit :=
  fun st =>
    let '(r, st') := loadFromDataverse host st in
    (r, set_trace (trace st ++ [loadFromDataverseCall]) st').

(** Modelled from the spec: [WebExtensionContext.reAuthenticate] is not
    among the sources.  The spec gives [reAuthenticate() -> token]: the
    authentication provider hands out a fresh token, which becomes the
    context's [dataverseAccessToken]. *)
Definition reAuthenticate : M unit :=
  call reAuthenticateCall ;;
  modify (fun st =>
    set_context
      (mkContext (isContextSet (context st)) (rootDirectory (context st))
         (fileDataMap (context st)) (urlParametersMap (context st))
         (freshToken host (dataverseAccessToken (context st)))) st).

Definition clearDirty (d : FileData) : FileData :=
  mkFileData (entityId d) (entityName d) false.

(** Modelled from the spec: [saveData] of the remote save provider is
    not among the sources.  The spec's protocol after the URL is built:
    submit the content with a PATCH request; on success clear the dirty
    flag of the file; on failure surface an error and leave the dirty
    flag set.  The failure is raised to the caller. *)
Definition saveData (accessToken requestUrl : string) (uri : Uri) : M unit :=
  call (saveDataCall accessToken requestUrl uri) ;;
  match patch host accessToken requestUrl with
  | None =>
      modify (fun st =>
        set_context
          (mkContext (isContextSet (context st)) (rootDirectory (context st))
             (alter clearDirty (fsPath host uri) (fileDataMap (context st)))
             (urlParametersMap (context st))
             (dataverseAccessToken (context st))) st)
  | Some statusText =>
      call (showErrorDialog statusText) ;;
      throw (JsError statusText)
  end.

Definition _saveFileToDataverseFromVFS (uri : Uri) : M unit :=
  st0 <- get_state ;;
  let dataMap := fileDataMap (context st0) in
  let dataverseOrgUrl := urlParametersMap (context st0) !! ORG_URL host in
  reAuthenticate ;;
  let patchRequestUrl :=
    getRequestURL host dataverseOrgUrl
      (entityName <$> dataMap !! fsPath host uri)
      (entityId <$> dataMap !! fsPath host uri)
      PATCH true in
  st1 <- get_state ;;
  saveData (dataverseAccessToken (context st1)) patchRequestUrl uri.

(** *** File metadata *)

Definition stat (uri : Uri) : M (option Entry) := _lookup uri false.

Definition readDirectory (uri : Uri) : M (list (string * FileType)) :=
  try_catch
    (entry <- _lookupAsDirectory uri false ;;
     ret (map (fun nc => (fst nc, type (snd nc))) (entries entry)))
    (fun error =>
       st <- get_state ;;
       if isFileNotFound error
       then
         if isContextSet (context st)
            && String.eqb (toLowerCase host (toString host uri))
                 (toLowerCase host (toString host (rootDirectory (context st))))
         then
           call (sendInfoTelemetry WEB_EXTENSION_FETCH_DIRECTORY_TRIGGERED) ;;
           _loadFromDataverseToVFS ;;
           ret []
         else ret []
       else ret []).

(** *** File contents *)

Definition readFile (uri : Uri) : M (list Byte.byte) :=
  try_catch
    (entry <- _lookupAsFile uri false ;; ret (data entry))
    (fun error =>
       st <- get_state ;;
       if isFileNotFound error
       then
         if isContextSet (context st)
            && Path.includes (toString host uri)
                 (toString host (rootDirectory (context st)))
         then
           if pathHasEntityFolderName host (context st) (toString host uri)
           then
             call (sendInfoTelemetry WEB_EXTENSION_FETCH_FILE_TRIGGERED) ;;
             _loadFromDataverseToVFS ;;
             entry <- _lookupAsFile uri false ;;
             ret (data entry)
           else ret []
         else ret []
       else ret []).

(** [fileDataMap.getFileMap.get(uri.fsPath)?.hasDirtyChanges] *)
Definition hasDirty (st : State) (uri : Uri) : bool :=
  match fileDataMap (context st) !! fsPath host uri with
  | Some d => hasDirtyChanges d
  | None => false
  end.

Definition writeFile (uri : Uri) (content : list Byte.byte)
    (create overwrite : bool) : M unit :=
  let basename := Path.basename (path uri) in
  let dirname := with_path uri (Path.dirname (path uri)) in
  parent <- _lookupParentDirectory uri ;;
  let entry := map_get (entries parent) basename in
  if instanceofDirectory entry then throw (FileIsADirectory uri)
  else if negb (defined entry) && negb create then throw FileNotFound
  else if defined entry && create && negb overwrite
  then throw (FileExists uri)
  else
    (if negb (defined entry)
     then
       now <- Date_now ;;
       mutate dirname (set_child basename (File basename now now 0 [])) ;;
       _fireSoon [mkEvent Created uri]
     else
       st <- get_state ;;
       if hasDirty st uri
       then
         call (withProgress "Saving your file ...") ;;
         call (sendInfoTelemetry WEB_EXTENSION_SAVE_FILE_TRIGGERED) ;;
         _saveFileToDataverseFromVFS uri
       else ret tt) ;;
    now <- Date_now ;;
    mutate dirname (adjust_child basename (write_content now content)) ;;
    _fireSoon [mkEvent Changed uri].

(** *** Files and folders *)

Definition createDirectory (uri : Uri) : M unit :=
  entry <- _lookup uri true ;;
  match entry with
  | Some _ => ret tt
  | None =>
      let basename := Path.basename (path uri) in
      let dirname := with_path uri (Path.dirname (path uri)) in
      _parent <- _lookupAsDirectory dirname false ;;
      now <- Date_now ;;
      let entry := Directory basename now now 0 [] in
      mutate dirname (add_directory now entry) ;;
      _fireSoon [mkEvent Changed dirname; mkEvent Created uri]
  end.

End Provider.

(** ** The walk that the spec describes

    "Tokenize by [/], walk from root": the child maps are followed along
    the non-empty segments.  [_lookup_loop] is compared with it below. *)
Fixpoint resolve (segs : list string) (entry : Entry) : option Entry :=
  match segs with
  | [] => Some entry
  | seg :: rest =>
      match child_of entry seg with
      | Some child => resolve rest child
      | None => None
      end
  end.

(** The parts of a split path that the loop of [_lookup] does not skip. *)
Definition walked (parts : list string) : list string :=
  List.filter (fun p => negb (Path.falsy p)) parts.

(** ** Remote fetch provider *)

Module RemoteFetch.

(** What the transport answers for the request of one entity type. *)
Inductive Response :=
| NotOk (statusText : string)
| NullPayload
| Records (records : list string).

(** What a fetch pass does that a user or the telemetry sink observes,
    and the records it writes into the file system. *)
Inductive Effect :=
| sendAPITelemetry (entity : string)
| sendAPISuccessTelemetry (entity : string)
| sendAPIFailureTelemetry (entity : string)
| showErrorMessage (message : string)
| showErrorDialog (title message : string)
| writeRecord (entity record : string).

Definition dialogTitle : string := "There was a problem opening the workspace".

Definition dialogMessage : string :=
  "We encountered an error preparing the file for edit.".

Definition fetchFailed : string := "Failed to fetch file content.".

(** Modelled from the spec: [remoteFetchProvider.ts] is not among the
    sources, only its integration tests are.  For one entity type the
    request is announced to telemetry and sent.  On a transport failure
    ([!ok]) the "Failed to fetch file content." notification is shown
    and the failure recorded; then, as for a null or absent payload, the
    error dialog is shown and a failure telemetry event recorded (the
    tests count two failure events for [!ok] and one for a null
    payload).  Otherwise the success is recorded and every record is
    written.  Nothing is thrown to the caller. *)
Definition fetchEntity (entity : string) (response : Response) : list Effect :=
  sendAPITelemetry entity ::
  match response with
  | NotOk _ =>
      [showErrorMessage fetchFailed; sendAPIFailureTelemetry entity;
       showErrorDialog dialogTitle dialogMessage;
       sendAPIFailureTelemetry entity]
  | NullPayload =>
      [showErrorDialog dialogTitle dialogMessage;
       sendAPIFailureTelemetry entity]
  | Records records =>
      sendAPISuccessTelemetry entity :: map (writeRecord entity) records
  end.

(** Modelled from the spec: the fetch pass visits the configured entity
    types in order and goes on to the next one whatever happened to the
    previous one; the call itself resolves. *)
Fixpoint fetchEntities (entities : list (string * Response))
    (log : list Effect) : Result unit * list Effect :=
  match entities with
  | [] => (Ok tt, log)
  | (entity, response) :: rest =>
      fetchEntities rest (log ++ fetchEntity entity response)
  end.

Definition fetchDataFromDataverseAndUpdateVFS
    (entities : list (string * Response)) : Result unit * list Effect :=
  fetchEntities entities [].

Definition failed (response : Response) : bool :=
  match response with Records _ => false | _ => true end.

Definition transportFailed (response : Response) : bool :=
  match response with NotOk _ => true | _ => false end.

Definition isDialog (e : Effect) : bool :=
  match e with
  | showErrorDialog title _ => String.eqb title dialogTitle
  | _ => false
  end.

Definition isFailureTelemetry (e : Effect) : bool :=
  match e with sendAPIFailureTelemetry _ => true | _ => false end.

Definition isNotification (e : Effect) : bool :=
  match e with
  | showErrorMessage message => String.eqb message fetchFailed
  | _ => false
  end.

Definition count {A} (p : A -> bool) (l : list A) : nat :=
  length (List.filter p l).

End RemoteFetch.

(** ** A sample site

    A host whose load materializes one web page, and the states of a
    short session; used to run the operations on concrete inputs. *)

Module Sample.

Definition vfs (p : string) : Uri := mkUri "powerplatform-vfs" "" p "" "".

Definition site : Uri := vfs "/site".
Definition webPages : Uri := vfs "/site/web-pages".
Definition home : Uri := vfs "/site/web-pages/home.html".
Definition other : Uri := vfs "/site/web-pages/other.html".
Definition belowHome : Uri := vfs "/site/web-pages/home.html/draft".

Definition uriString (u : Uri) : string :=
  String.append (scheme u) (String.append ":" (path u)).

Definition hello : list Byte.byte := [Byte.x68; Byte.x69].
Definition bye : list Byte.byte := [Byte.x62; Byte.x79; Byte.x65].

(** The load of [sample_host]: the site folder, the entity folder and
    one page, through the provider's own operations. *)
Definition quiet_host : Host :=
  mkHost uriString path (fun s => s)
    (fun _ s => Path.includes s "web-pages") "orgUrl"
    (fun _ _ _ _ _ => "https://org.example/api/data/v9.2/adx_webpages")
    (fun _ => "token-2") (fun _ _ => None) (fun st => (Ok tt, st)).

Definition sample_load : M unit :=
  createDirectory site ;;
  createDirectory webPages ;;
  writeFile quiet_host home hello true true.

Definition sample_host (saveOk : bool) : Host :=
  mkHost uriString path (fun s => s)
    (fun _ s => Path.includes s "web-pages") "orgUrl"
    (fun _ _ _ _ _ => "https://org.example/api/data/v9.2/adx_webpages")
    (fun _ => "token-2")
    (fun _ _ => if saveOk then None else Some "Bad Request")
    sample_load.

Definition fresh : State :=
  mkState (Directory "" 0 0 0 []) []
    (mkContext true site ∅ ∅ "token-1") 100 [].

(** After the load. *)
Definition loaded : State := snd (sample_load fresh).

(** A relative path, and a tree in which the directory [.] that
    [path.posix.dirname] gives for it exists. *)
Definition relative : Uri := vfs "a".

Definition dotted : State := snd (createDirectory (vfs "/.") fresh).

(** The entity folder and the site folder of [loaded]. *)
Definition webPagesDir : Entry :=
  Directory "web-pages" 100 100 0
    [("home.html", File "home.html" 100 100 2 hello)].

Definition siteDir : Entry := Directory "site" 100 100 1 [("web-pages", webPagesDir)].

(** After the load, with the page edited and not yet saved. *)
Definition edited : State :=
  set_context
    (mkContext true site
       {[ path home := mkFileData "page-1" "adx_webpages" true ]} ∅ "token-1")
    loaded.

End Sample.

(** ** States that [writeFile] reaches

    Named here to state its effect; the lemmas below show that the
    source computes them. *)

(** The tree after the content has been applied to the file [f] that is,
    or has just become, the child [basename] of the parent directory. *)
Definition written (uri : Uri) (content : list Byte.byte) (now : Z)
    (f : Entry) (r : Entry) : Entry :=
  update_at (Path.split (Path.dirname (path uri)))
    (set_child (Path.basename (path uri)) (write_content now content f)) r.

(** The context after a save: the token is the refreshed one and, when
    [cleared], the dirty flag of the file is reset. *)
Definition saved_context (host : Host) (uri : Uri) (st : State)
    (cleared : bool) : Context :=
  mkContext (isContextSet (context st)) (rootDirectory (context st))
    (if cleared
     then alter clearDirty (fsPath host uri) (fileDataMap (context st))
     else fileDataMap (context st))
    (urlParametersMap (context st))
    (freshToken host (dataverseAccessToken (context st))).

Definition patchRequestUrl (host : Host) (uri : Uri) (st : State) : string :=
  getRequestURL host (urlParametersMap (context st) !! ORG_URL host)
    (entityName <$> fileDataMap (context st) !! fsPath host uri)
    (entityId <$> fileDataMap (context st) !! fsPath host uri) PATCH true.

(** The calls of one save, up to the PATCH request. *)
Definition save_calls (host : Host) (uri : Uri) (st : State) : list Call :=
  [withProgress "Saving your file ...";
   sendInfoTelemetry WEB_EXTENSION_SAVE_FILE_TRIGGERED;
   reAuthenticateCall;
   saveDataCall (freshToken host (dataverseAccessToken (context st)))
     (patchRequestUrl host uri st) uri].

(** How often a call occurs in a trace. *)
Definition count_calls (p : Call -> bool) (t : list Call) : nat :=
  length (List.filter p t).

Definition is_saveData (c : Call) : bool :=
  match c with saveDataCall _ _ _ => true | _ => false end.

Definition is_load (c : Call) : bool :=
  match c with loadFromDataverseCall => true | _ => false end.

(** ** The event buffer with its timer

    [_fireSoon] above is the buffering half of the source method.  Here
    the other half is modelled as well: the handle kept in
    [_fireSoonHandle], the timers of the event loop that are still
    pending, and the batches handed to the emitter when a timer runs.
    When the 5 ms of a timer elapse is up to the event loop: a run is a
    sequence of [_fireSoon] calls and timers coming due. *)

Module Events.

Record Emitter := mkEmitter
  { _bufferedEvents : list FileChangeEvent;
    _fireSoonHandle : option nat;
    pending : list nat;
    nextHandle : nat;
    fired : list (list FileChangeEvent) }.

(** A new provider: nothing buffered, no handle, no timer. *)
Definition initial : Emitter := mkEmitter [] None [] 1 [].

(** [clearTimeout(handle)]: the timer, if still pending, will not run. *)
Definition clearTimeout (handle : nat) (timers : list nat) : list nat :=
  List.filter (fun h => negb (Nat.eqb h handle)) timers.

(** [_fireSoon(...events)]: push the events, clear the timer of the
    handle if there is a handle, and keep the handle of a new timer. *)
Definition _fireSoon (events : list FileChangeEvent) (e : Emitter) : Emitter :=
  let timers :=
    match _fireSoonHandle e with
    | Some handle => clearTimeout handle (pending e)
    | None => pending e
    end in
  mkEmitter (_bufferedEvents e ++ events) (Some (nextHandle e))
    (timers ++ [nextHandle e]) (S (nextHandle e)) (fired e).

(** The timer [handle] comes due.  If it was not cleared and has not run
    yet, its callback fires the buffered events as one batch and empties
    the buffer; [_fireSoonHandle] is left as it is. *)
Definition timeout (handle : nat) (e : Emitter) : Emitter :=
  if existsb (Nat.eqb handle) (pending e)
  then mkEmitter [] (_fireSoonHandle e) (clearTimeout handle (pending e))
         (nextHandle e) (fired e ++ [_bufferedEvents e])
  else e.

Inductive Step :=
| FireSoon (events : list FileChangeEvent)
| Timeout (handle : nat).

Definition step (e : Emitter) (s : Step) : Emitter :=
  match s with
  | FireSoon events => _fireSoon events e
  | Timeout handle => timeout handle e
  end.

Definition run (steps : list Step) (e : Emitter) : Emitter :=
  fold_left step steps e.

(** The events passed to [_fireSoon] during a run, in order. *)
Definition announced (steps : list Step) : list FileChangeEvent :=
  flat_map (fun s => match s with FireSoon events => events | Timeout _ => [] end)
    steps.

(** At most one timer is pending, the one of the handle, and whatever is
    buffered has a timer that will fire it. *)
Definition tidy (e : Emitter) : Prop :=
  (pending e = [] \/
   exists handle, _fireSoonHandle e = Some handle /\ pending e = [handle]) /\
  (_bufferedEvents e <> [] -> pending e <> []).

End Events.

(** ** Creating the site folders and loading from Dataverse

    [createFileSystem], [createEntityFolder] and
    [_loadFromDataverseToVFS] of the provider, with what they take from
    outside the sources gathered in [Workbench]: constants, the schema
    lookup [getEntity], [vscode.Uri.parse], the number of workspace
    folders, and the two calls that do the remote work.  Their telemetry
    and the workspace update are logged next to the provider state. *)

Module Dataverse.

Inductive folderEventNames :=
| WEB_EXTENSION_EMPTY_PORTAL_FOLDER_NAME
| WEB_EXTENSION_CREATE_ROOT_FOLDER
| WEB_EXTENSION_CREATE_ENTITY_FOLDER.

Inductive Notice :=
| sendErrorTelemetry (eventName : folderEventNames)
| sendInfoTelemetry (eventName : folderEventNames)
| updateWorkspaceFolders (start : nat) (uri : Uri) (name : string).

Record Workbench := mkWorkbench
  { PORTALS_URI_SCHEME : string;
    WEBSITE_NAME : string;
    PORTAL_FOLDER_NAME_EMPTY : string;
    SUBURI_EMPTY : string;
    EXPORT_TYPE : string;
    FILE_FOLDER_NAME : string;
    SubFolders : string;
    SingleFolder : string;
    parse : string -> bool -> Result Uri;
    getEntity : string -> option (gmap string string);
    defaultEntityType : string;
    workspaceFolders : option nat;
    authenticateAndUpdateDataverseProperties : State -> Result unit * State;
    fetchDataFromDataverseAndUpdateVFS : State -> Result unit * State }.

(** Computations over the provider state and the log. *)
Definition L (A : Type) : Type :=
  State * list Notice -> Result A * (State * list Notice).

Definition lret {A} (a : A) : L A := fun s => (Ok a, s).

Definition lthrow {A} (e : Error) : L A := fun s => (Throw e, s).

Definition lbind {A B} (m : L A) (k : A -> L B) : L B :=
  fun s =>
    match m s with
    | (Ok a, s') => k a s'
    | (Throw e, s') => (Throw e, s')
    end.

(** A provider method, or a call that works on the provider state. *)
Definition lift {A} (m : M A) : L A :=
  fun s => let '(r, st') := m (fst s) in (r, (st', snd s)).

Definition notice (n : Notice) : L unit :=
  fun s => (Ok tt, (fst s, snd s ++ [n])).

Definition result {A} (r : Result A) : L A :=
  match r with Ok a => lret a | Throw e => lthrow e end.

Declare Scope dataverse_scope.
Notation "x <- m ;; k" := (lbind m (fun x => k))
  (at level 100, m at next level, right associativity) : dataverse_scope.
Notation "m ;; k" := (lbind m (fun _ => k))
  (at level 100, right associativity) : dataverse_scope.
Local Open Scope dataverse_scope.

(** [`${value}`] for a value that may be [undefined]. *)
Definition interpolate (value : option string) : string :=
  match value with Some s => s | None => "undefined" end.

(** [`${PORTALS_URI_SCHEME}:/${rest}`] *)
Definition portalUri (W : Workbench) (rest : string) : string :=
  String.append (PORTALS_URI_SCHEME W) (String.append ":/" rest).

Definition createEntityFolder (W : Workbench) (portalFolderName : string)
  : L unit :=
  let entityDetails := getEntity W (defaultEntityType W) in
  let exportType :=
    match entityDetails with Some m => m !! EXPORT_TYPE W | None => None end in
  let subUri :=
    match entityDetails with
    | Some m => m !! FILE_FOLDER_NAME W
    | None => None
    end in
  if match subUri with Some s => Nat.eqb (String.length s) 0 | None => false end
  then lthrow (JsError (SUBURI_EMPTY W))
  else
    notice (sendInfoTelemetry WEB_EXTENSION_CREATE_ENTITY_FOLDER) ;;
    if match exportType with
       | Some t =>
           negb (Path.falsy t)
           && (String.eqb t (SubFolders W) || String.eqb t (SingleFolder W))
       | None => false
       end
    then
      let filePathInPortalFS :=
        portalUri W
          (String.append portalFolderName
             (String.append "/" (String.append (interpolate subUri) "/"))) in
      uri <- result (parse W filePathInPortalFS true) ;;
      lift (createDirectory uri)
    else lret tt.

Definition createFileSystem (W : Workbench) (portalFolderName : string)
  : L unit :=
  if Nat.eqb (String.length portalFolderName) 0
  then
    notice (sendErrorTelemetry WEB_EXTENSION_EMPTY_PORTAL_FOLDER_NAME) ;;
    lthrow (JsError (PORTAL_FOLDER_NAME_EMPTY W))
  else
    notice (sendInfoTelemetry WEB_EXTENSION_CREATE_ROOT_FOLDER) ;;
    uri <- result (parse W (portalUri W (String.append portalFolderName "/")) true) ;;
    lift (createDirectory uri) ;;
    let start :=
      match workspaceFolders W with Some length => length | None => 0%nat end in
    folder <- result (parse W (portalUri W (String.append portalFolderName "/")) false) ;;
    notice (updateWorkspaceFolders start folder portalFolderName) ;;
    createEntityFolder W portalFolderName.

(** The website name is read with [as string]; when the parameter is
    missing, [portalFolderName.length] raises a [TypeError]. *)
Definition _loadFromDataverseToVFS (W : Workbench) : L unit :=
  lift (authenticateAndUpdateDataverseProperties W) ;;
  s <- (fun s => (Ok s, s)) ;;
  match urlParametersMap (context (fst s)) !! WEBSITE_NAME W with
  | Some portalFolderName => createFileSystem W portalFolderName
  | None =>
      lthrow (JsError "Cannot read properties of undefined (reading 'length')")
  end ;;
  lift (fetchDataFromDataverseAndUpdateVFS W).

(** The strings that [createFileSystem] and [createEntityFolder] hand to
    [Uri.parse]: [`${PORTALS_URI_SCHEME}:/${portalFolderName}/`] and
    [`${PORTALS_URI_SCHEME}:/${portalFolderName}/${subUri}/`]. *)
Definition siteFolderUri (W : Workbench) (portalFolderName : string)
  : string :=
  portalUri W (String.append portalFolderName "/").

Definition entityFolderUri (W : Workbench) (portalFolderName : string)
  : string :=
  let subUri :=
    match getEntity W (defaultEntityType W) with
    | Some m => m !! FILE_FOLDER_NAME W
    | None => None
    end in
  portalUri W
    (String.append portalFolderName
       (String.append "/" (String.append (interpolate subUri) "/"))).

(** A single path segment: not empty, no separator. *)
Definition plainName (s : string) : bool :=
  negb (Path.falsy s) && forallb Path.not_slash (list_ascii_of_string s).

(** A workbench for a site whose schema is [schema]: URIs of the
    portal scheme parse to their path, nothing else parses, and the
    remote calls do nothing. *)
Definition sample_parse (value : string) (strict : bool) : Result Uri :=
  if String.prefix "powerplatform-vfs:" value
  then Ok (Sample.vfs (String.substring 18 (String.length value - 18) value))
  else Throw (JsError "[UriError]: Scheme is missing").

Definition sample_workbench (schema : option (gmap string string))
  : Workbench :=
  mkWorkbench "powerplatform-vfs" "websiteName"
    "portal folder name is empty" "subUri is empty"
    "_exporttype" "_foldername" "SubFolders" "SingleFolder"
    sample_parse
    (fun entityType =>
       if String.eqb entityType "webpages" then schema else None)
    "webpages" None
    (fun st => (Ok tt, st)) (fun st => (Ok tt, st)).

Definition webpages_schema : gmap string string :=
  <["_exporttype" := "SubFolders"]> (<["_foldername" := "web-pages"]> ∅).

(** A schema entry whose folder name is the empty string. *)
Definition nameless_schema : gmap string string :=
  <["_foldername" := ""]> webpages_schema.

(** A schema entry with an export type and no folder name. *)
Definition folderless_schema : gmap string string :=
  <["_exporttype" := "SubFolders"]> ∅.

(** The notices of one successful [createFileSystem]. *)
Definition folderNotices (W : Workbench) (folder : Uri)
    (portalFolderName : string) : list Notice :=
  [sendInfoTelemetry WEB_EXTENSION_CREATE_ROOT_FOLDER;
   updateWorkspaceFolders
     match workspaceFolders W with Some length => length | None => 0%nat end
     folder portalFolderName;
   sendInfoTelemetry WEB_EXTENSION_CREATE_ENTITY_FOLDER].

End Dataverse.

(** ** The survey endpoint

    [NPSService.getNpsSurveyEndpoint].  The region is read from the URL
    parameters and lowered by [toLowerCase]; [dataBoundary] is what
    [getCurrentDataBoundary()] returned, [None] for [undefined]. *)

Module NPS.

Definition getNpsSurveyEndpoint (toLowerCase : string -> string)
    (REGION : string) (urlParametersMap : option (gmap string string))
    (dataBoundary : option string) : string :=
  let region :=
    match urlParametersMap with
    | Some m => option_map toLowerCase (m !! REGION)
    | None => None
    end in
  let eu :=
    match dataBoundary with Some b => String.eqb b "eu" | None => false end in
  match region with
  | Some region =>
      if String.eqb region "tie" || String.eqb region "test"
         || String.eqb region "preprod"
      then
        if eu then "https://europe.tip1.ces.microsoftcloud.com"
        else "https://world.tip1.ces.microsoftcloud.com"
      else if String.eqb region "prod" || String.eqb region "preview"
      then
        if eu then "https://europe.ces.microsoftcloud.com"
        else "https://world.ces.microsoftcloud.com"
      else if String.eqb region "gov" || String.eqb region "high"
              || String.eqb region "dod" || String.eqb region "mooncake"
      then "https://world.ces.microsoftcloud.com"
      else ""
  | None => ""
  end.

(** The case labels of the regions with a data boundary, and of the
    sovereign clouds. *)
Definition commercial : list string :=
  ["tie"; "test"; "preprod"; "prod"; "preview"].

Definition sovereign : list string := ["gov"; "high"; "dod"; "mooncake"].

End NPS.

(** ** Views of the tree used to state further properties *)

(** What [_lookupAsFile] makes of the entry that the walk finds. *)
Definition asFile (uri : Uri) (found : option Entry) : Result Entry :=
  match found with
  | Some e => if isDirectory e then Throw (FileIsADirectory uri) else Ok e
  | None => Throw FileNotFound
  end.

(** The (name, type) pairs that [readDirectory] pushes for a directory. *)
Definition listing (dir : Entry) : list (string * FileType) :=
  map (fun nc => (fst nc, type (snd nc))) (entries dir).

(** Every child is stored under its own [name], once. *)
Fixpoint well_named (e : Entry) : Prop :=
  match e with
  | File _ _ _ _ _ => True
  | Directory _ _ _ _ es =>
      NoDup (map fst es) /\
      (fix children (l : list (string * Entry)) : Prop :=
         match l with
         | [] => True
         | (k, c) :: r => name c = k /\ well_named c /\ children r
         end) es
  end.

(** * Facts *)

(** ** Paths *)

Example split_abs : Path.split "/a/b" = [""; "a"; "b"].
Proof. reflexivity. Qed.
Example split_empty : Path.split "" = [""].
Proof. reflexivity. Qed.
Example split_trailing : Path.split "a//b/" = ["a"; ""; "b"; ""].
Proof. reflexivity. Qed.
Example basename_1 : Path.basename "/a/b/" = "b".
Proof. reflexivity. Qed.
Example basename_2 : Path.basename "///" = "".
Proof. reflexivity. Qed.
Example dirname_1 : Path.dirname "/a/b/" = "/a".
Proof. reflexivity. Qed.
Example dirname_2 : Path.dirname "/a//b" = "/a/".
Proof. reflexivity. Qed.
Example dirname_3 : Path.dirname "/a" = "/".
Proof. reflexivity. Qed.
Example dirname_4 : Path.dirname "//a" = "//".
Proof. reflexivity. Qed.
Example dirname_5 : Path.dirname "a" = ".".
Proof. reflexivity. Qed.
Example dirname_6 : Path.dirname "" = ".".
Proof. reflexivity. Qed.
Example dirname_7 : Path.dirname "a/b" = "a".
Proof. reflexivity. Qed.
Example includes_1 : Path.includes "vfs:/site/web-pages/x" "vfs:/site" = true.
Proof. reflexivity. Qed.
Example includes_2 : Path.includes "vfs:/other" "vfs:/site" = false.
Proof. reflexivity. Qed.

Module PathFacts.
Import Path.

Lemma split_chars_not_nil l : split_chars l <> [].
Proof.
  destruct l as [|c r]; simpl; [discriminate|].
  destruct (is_slash c); [discriminate|].
  destruct (split_chars r); discriminate.
Qed.

Lemma split_chars_app_slash a b :
  split_chars (a ++ slash :: b) = split_chars a ++ split_chars b.
Proof.
  induction a as [|c a IH]; simpl.
  - reflexivity.
  - destruct (is_slash c).
    + now rewrite IH.
    + rewrite IH. pose proof (split_chars_not_nil a) as Hne.
      destruct (split_chars a); [contradiction|reflexivity].
Qed.

Lemma split_chars_no_slash m :
  forallb not_slash m = true -> split_chars m = [m].
Proof.
  induction m as [|c m IH]; simpl; [reflexivity|].
  unfold not_slash at 1. intros H. apply andb_prop in H as [Hc Hm].
  apply negb_true_iff in Hc. rewrite Hc, (IH Hm). reflexivity.
Qed.

Lemma segments_chars_app_slash a b :
  segments_chars (a ++ slash :: b) = segments_chars a ++ segments_chars b.
Proof.
  unfold segments_chars. now rewrite split_chars_app_slash, List.filter_app.
Qed.

Lemma segments_chars_no_slash m :
  forallb not_slash m = true ->
  segments_chars m = if nonempty_chars m then [m] else [].
Proof.
  intros H. unfold segments_chars. rewrite (split_chars_no_slash _ H). reflexivity.
Qed.

Lemma segments_chars_slashes s :
  forallb is_slash s = true -> segments_chars s = [].
Proof.
  induction s as [|c s IH]; simpl; [reflexivity|].
  intros H. apply andb_prop in H as [Hc Hs].
  unfold segments_chars. simpl. rewrite Hc. simpl. now apply IH.
Qed.

Lemma is_slash_eq c : is_slash c = true -> c = slash.
Proof. unfold is_slash. now intros H%Ascii.eqb_eq. Qed.

Lemma segments_chars_trailing m s :
  forallb is_slash s = true -> segments_chars (m ++ s) = segments_chars m.
Proof.
  destruct s as [|c s]; simpl.
  - now rewrite app_nil_r.
  - intros H. apply andb_prop in H as [Hc Hs].
    apply is_slash_eq in Hc. subst c.
    rewrite segments_chars_app_slash, (segments_chars_slashes _ Hs).
    now rewrite app_nil_r.
Qed.

(** [take_while] and [drop_while] split a list in two. *)
Lemma take_drop_while {A} (p : A -> bool) l :
  take_while p l ++ drop_while p l = l.
Proof.
  induction l as [|x l IH]; simpl; [reflexivity|].
  destruct (p x); simpl; [now rewrite IH|reflexivity].
Qed.

Lemma take_while_all {A} (p : A -> bool) l :
  forallb p (take_while p l) = true.
Proof.
  induction l as [|x l IH]; simpl; [reflexivity|].
  destruct (p x) eqn:E; simpl; [now rewrite E|reflexivity].
Qed.

Lemma drop_while_head {A} (p : A -> bool) l x r :
  drop_while p l = x :: r -> p x = false.
Proof.
  induction l as [|y l IH]; simpl; [discriminate|].
  destruct (p y) eqn:E; [exact IH|]. intros [= -> _]. exact E.
Qed.

Lemma take_while_app_stop {A} (p : A -> bool) a x r :
  forallb p a = true -> p x = false -> take_while p (a ++ x :: r) = a.
Proof.
  induction a as [|y a IH]; simpl; intros Ha Hx.
  - now rewrite Hx.
  - apply andb_prop in Ha as [Hy Ha]. now rewrite Hy, IH.
Qed.

Lemma drop_while_app_stop {A} (p : A -> bool) a x r :
  forallb p a = true -> p x = false -> drop_while p (a ++ x :: r) = x :: r.
Proof.
  induction a as [|y a IH]; simpl; intros Ha Hx.
  - now rewrite Hx.
  - apply andb_prop in Ha as [Hy Ha]. now rewrite Hy, IH.
Qed.

Lemma drop_while_all {A} (p : A -> bool) a :
  forallb p a = true -> drop_while p a = [].
Proof.
  induction a as [|y a IH]; simpl; [reflexivity|].
  intros Ha. apply andb_prop in Ha as [Hy Ha]. now rewrite Hy, IH.
Qed.

Lemma forallb_rev {A} (p : A -> bool) l :
  forallb p (rev l) = forallb p l.
Proof.
  induction l as [|x l IH]; simpl; [reflexivity|].
  rewrite forallb_app, IH. simpl. rewrite andb_true_r. apply andb_comm.
Qed.

(** An absolute path is all separators, or ends in a last name that is
    preceded by a separator and followed by separators only. *)
Lemma path_shape l t :
  l = slash :: t ->
  forallb is_slash l = true \/
  exists pre nm sl,
    l = pre ++ slash :: nm ++ sl /\ nm <> [] /\
    forallb not_slash nm = true /\ forallb is_slash sl = true.
Proof.
  intros Hl.
  pose proof (take_drop_while is_slash (rev l)) as HS.
  pose proof (take_while_all is_slash (rev l)) as HSall.
  set (S := take_while is_slash (rev l)) in *.
  destruct (drop_while is_slash (rev l)) as [|x D] eqn:ED.
  - left. rewrite app_nil_r in HS. rewrite <- forallb_rev, <- HS. exact HSall.
  - right.
    pose proof (drop_while_head _ _ _ _ ED) as Hx.
    pose proof (take_drop_while not_slash (x :: D)) as HN.
    pose proof (take_while_all not_slash (x :: D)) as HNall.
    set (N := take_while not_slash (x :: D)) in *.
    assert (HNne : N <> []).
    { subst N. simpl. unfold not_slash at 1. rewrite Hx. discriminate. }
    assert (Hrev : l = rev (drop_while not_slash (x :: D)) ++ rev N ++ rev S).
    { rewrite <- !rev_app_distr, <- app_assoc, HN, HS. symmetry. apply rev_involutive. }
    destruct (drop_while not_slash (x :: D)) as [|y P] eqn:EP.
    + exfalso. simpl in Hrev. rewrite Hl in Hrev.
      destruct (rev N) as [|z N'] eqn:EN.
      * apply HNne. rewrite <- (rev_involutive N), EN. reflexivity.
      * injection Hrev as Hz _.
        assert (Hall : forallb not_slash (rev N) = true)
          by (rewrite forallb_rev; exact HNall).
        rewrite EN in Hall. simpl in Hall. rewrite <- Hz in Hall.
        discriminate Hall.
    + pose proof (drop_while_head _ _ _ _ EP) as Hy.
      apply negb_false_iff, is_slash_eq in Hy. subst y.
      exists (rev P), (rev N), (rev S). repeat split.
      * rewrite Hrev. simpl. now rewrite <- !app_assoc.
      * intros E. apply HNne. rewrite <- (rev_involutive N), E. reflexivity.
      * now rewrite forallb_rev.
      * now rewrite forallb_rev.
Qed.

Lemma nonempty_rev_cons (nm : list ascii) :
  nm <> [] -> exists x r, rev nm = x :: r.
Proof.
  intros Hne. destruct (rev nm) as [|x r] eqn:E; [|eauto].
  exfalso. apply Hne. rewrite <- (rev_involutive nm), E. reflexivity.
Qed.

Lemma basename_chars_shape pre nm sl :
  nm <> [] -> forallb not_slash nm = true -> forallb is_slash sl = true ->
  basename_chars (pre ++ slash :: nm ++ sl) = nm.
Proof.
  intros Hne Hnm Hsl. unfold basename_chars.
  rewrite rev_app_distr. simpl. rewrite rev_app_distr, <- !app_assoc. simpl.
  destruct (nonempty_rev_cons nm Hne) as (x & r & E).
  assert (Hall : forallb not_slash (rev nm) = true) by now rewrite forallb_rev.
  assert (Hx : is_slash x = false).
  { rewrite E in Hall. simpl in Hall. apply andb_prop in Hall as [Hx _].
    now apply negb_true_iff in Hx. }
  rewrite E. simpl. rewrite drop_while_app_stop; [|now rewrite forallb_rev|exact Hx].
  change (x :: r ++ slash :: rev pre) with ((x :: r) ++ slash :: rev pre).
  rewrite <- E, take_while_app_stop; [apply rev_involutive|exact Hall|reflexivity].
Qed.

Lemma basename_chars_slashes l :
  forallb is_slash l = true -> basename_chars l = [].
Proof.
  intros H. unfold basename_chars.
  rewrite drop_while_all; [reflexivity|now rewrite forallb_rev].
Qed.

Lemma dirname_chars_shape pre nm sl t :
  pre ++ slash :: nm ++ sl = slash :: t ->
  nm <> [] -> forallb not_slash nm = true -> forallb is_slash sl = true ->
  segments_chars (dirname_chars (pre ++ slash :: nm ++ sl)) = segments_chars pre.
Proof.
  intros Habs Hne Hnm Hsl.
  destruct (nonempty_rev_cons nm Hne) as (x & r & E).
  assert (Hall : forallb not_slash (rev nm) = true) by now rewrite forallb_rev.
  assert (Hx : is_slash x = false).
  { rewrite E in Hall. simpl in Hall. apply andb_prop in Hall as [Hx _].
    now apply negb_true_iff in Hx. }
  assert (Hsl' : forallb is_slash (rev sl) = true) by now rewrite forallb_rev.
  destruct pre as [|c0 pre']; simpl in *.
  - rewrite rev_app_distr, E. simpl.
    rewrite drop_while_app_stop by assumption.
    rewrite <- E, drop_while_all by exact Hall. reflexivity.
  - injection Habs as -> _.
    rewrite rev_app_distr. simpl. rewrite rev_app_distr, <- !app_assoc, E. simpl.
    rewrite drop_while_app_stop by assumption.
    change (x :: r ++ slash :: rev pre') with ((x :: r) ++ slash :: rev pre').
    rewrite <- E, drop_while_app_stop by (exact Hall || reflexivity).
    destruct (rev pre') as [|z q] eqn:Epre; simpl.
    + assert (pre' = []) as ->.
      { rewrite <- (rev_involutive pre'), Epre. reflexivity. }
      reflexivity.
    + change (rev q ++ [z]) with (rev (z :: q)).
      rewrite <- Epre, rev_involutive. reflexivity.
Qed.

(** The parts walked for a path are those of its [dirname] followed by
    its [basename].  *)
Lemma segments_chars_parent l t :
  l = slash :: t -> basename_chars l <> [] ->
  segments_chars l = segments_chars (dirname_chars l) ++ [basename_chars l].
Proof.
  intros Hl Hb. destruct (path_shape l t Hl) as [Hall|(pre & nm & sl & E & Hne & Hnm & Hsl)].
  - now rewrite basename_chars_slashes in Hb.
  - rewrite E in Hl. rewrite E.
    rewrite (dirname_chars_shape _ _ _ _ Hl Hne Hnm Hsl).
    rewrite (basename_chars_shape _ _ _ Hne Hnm Hsl).
    rewrite segments_chars_app_slash, (segments_chars_trailing _ _ Hsl).
    rewrite (segments_chars_no_slash _ Hnm).
    destruct nm; [contradiction|reflexivity].
Qed.

Lemma segments_chars_no_basename l t :
  l = slash :: t -> basename_chars l = [] -> segments_chars l = [].
Proof.
  intros Hl Hb. destruct (path_shape l t Hl) as [Hall|(pre & nm & sl & E & Hne & Hnm & Hsl)].
  - now apply segments_chars_slashes.
  - rewrite E, (basename_chars_shape _ _ _ Hne Hnm Hsl) in Hb. contradiction.
Qed.

End PathFacts.

(** *** The same facts on strings *)

Lemma falsy_of_chars l :
  negb (Path.falsy (string_of_list_ascii l)) = Path.nonempty_chars l.
Proof. destruct l; reflexivity. Qed.

Lemma segments_of_chars s :
  Path.segments s =
  map string_of_list_ascii (Path.segments_chars (list_ascii_of_string s)).
Proof.
  unfold Path.segments, Path.segments_chars, Path.split.
  induction (Path.split_chars (list_ascii_of_string s)) as [|l ls IH]; simpl.
  - reflexivity.
  - rewrite falsy_of_chars, IH. destruct (Path.nonempty_chars l); reflexivity.
Qed.

Lemma absolute_chars p :
  Path.is_absolute p = true ->
  exists t, list_ascii_of_string p = Path.slash :: t.
Proof.
  destruct p as [|c p]; simpl; [discriminate|].
  intros H%PathFacts.is_slash_eq. subst c. eauto.
Qed.

Lemma string_of_chars_nil l : string_of_list_ascii l = "" -> l = [].
Proof. destruct l; [reflexivity|discriminate]. Qed.

(** For an absolute path with a last name, the walked segments are those
    of the [dirname] followed by the [basename]. *)
Lemma segments_parent p :
  Path.is_absolute p = true -> Path.basename p <> "" ->
  Path.segments p = Path.segments (Path.dirname p) ++ [Path.basename p].
Proof.
  intros Habs Hb. destruct (absolute_chars p Habs) as [t Ht].
  rewrite !segments_of_chars. unfold Path.dirname, Path.basename in *.
  rewrite list_ascii_of_string_of_list_ascii.
  rewrite (PathFacts.segments_chars_parent _ t Ht).
  - now rewrite map_app.
  - intros E. apply Hb. now rewrite E.
Qed.

Lemma segments_no_basename p :
  Path.is_absolute p = true -> Path.basename p = "" -> Path.segments p = [].
Proof.
  intros Habs Hb. destruct (absolute_chars p Habs) as [t Ht].
  rewrite segments_of_chars. unfold Path.basename in Hb.
  apply string_of_chars_nil in Hb.
  now rewrite (PathFacts.segments_chars_no_basename _ t Ht Hb).
Qed.

Lemma segments_all_slashes p :
  forallb Path.is_slash (list_ascii_of_string p) = true -> Path.segments p = [].
Proof.
  intros H. rewrite segments_of_chars.
  now rewrite (PathFacts.segments_chars_slashes _ H).
Qed.

(** ** Maps *)

Section JsMapFacts.
Context {A : Type}.
Implicit Types (m : list (string * A)) (k : string).

Lemma map_get_set_eq m k v : map_get (map_set m k v) k = Some v.
Proof.
  induction m as [|[k' v'] m IH]; simpl.
  - now rewrite String.eqb_refl.
  - destruct (String.eqb k k') eqn:E; simpl.
    + now rewrite String.eqb_refl.
    + now rewrite E.
Qed.

Lemma map_get_set_ne m k k' v :
  k <> k' -> map_get (map_set m k v) k' = map_get m k'.
Proof.
  intros Hne. induction m as [|[k0 v0] m IH]; simpl.
  - destruct (String.eqb k' k) eqn:E; [|reflexivity].
    apply String.eqb_eq in E. congruence.
  - destruct (String.eqb k k0) eqn:E; simpl.
    + apply String.eqb_eq in E. subst k0.
      destruct (String.eqb k' k) eqn:E'; [|reflexivity].
      apply String.eqb_eq in E'. congruence.
    + now rewrite IH.
Qed.

Lemma map_set_fresh m k v :
  map_get m k = None -> map_set m k v = m ++ [(k, v)].
Proof.
  induction m as [|[k' v'] m IH]; simpl; [reflexivity|].
  destruct (String.eqb k k'); [discriminate|]. intros H. now rewrite IH.
Qed.

Lemma map_get_adjust_eq m k f :
  map_get (map_adjust k f m) k = f <$> map_get m k.
Proof.
  induction m as [|[k' v'] m IH]; simpl; [reflexivity|].
  destruct (String.eqb k k') eqn:E; simpl; now rewrite E.
Qed.

Lemma map_get_adjust_ne m k k' f :
  k <> k' -> map_get (map_adjust k f m) k' = map_get m k'.
Proof.
  intros Hne. induction m as [|[k0 v0] m IH]; simpl; [reflexivity|].
  destruct (String.eqb k k0) eqn:E; simpl.
  - apply String.eqb_eq in E. subst k0.
    destruct (String.eqb k' k) eqn:E'; [|reflexivity].
    apply String.eqb_eq in E'. congruence.
  - now rewrite IH.
Qed.

Lemma map_adjust_absent m k f : map_get m k = None -> map_adjust k f m = m.
Proof.
  induction m as [|[k' v'] m IH]; simpl; [reflexivity|].
  destruct (String.eqb k k'); [discriminate|]. intros H. now rewrite IH.
Qed.

Lemma map_adjust_set m k v f :
  map_adjust k f (map_set m k v) = map_set m k (f v).
Proof.
  induction m as [|[k' v'] m IH]; simpl.
  - now rewrite String.eqb_refl.
  - destruct (String.eqb k k') eqn:E; simpl.
    + now rewrite String.eqb_refl.
    + now rewrite E, IH.
Qed.

Lemma map_adjust_as_set m k v f :
  map_get m k = Some v -> map_adjust k f m = map_set m k (f v).
Proof.
  induction m as [|[k' v'] m IH]; simpl; [discriminate|].
  destruct (String.eqb k k') eqn:E.
  - intros [= ->]. apply String.eqb_eq in E. now subst.
  - intros H. now rewrite IH.
Qed.

End JsMapFacts.

Section JsMapMore.
Context {A : Type}.
Implicit Types (m : list (string * A)) (k : string).

Lemma map_adjust_ext m k (f g : A -> A) :
  (forall v, f v = g v) -> map_adjust k f m = map_adjust k g m.
Proof.
  intros H. induction m as [|[k' v'] m IH]; simpl; [reflexivity|].
  destruct (String.eqb k k'); [now rewrite H|now rewrite IH].
Qed.

Lemma map_adjust_compose m k (f g : A -> A) :
  map_adjust k g (map_adjust k f m) = map_adjust k (fun v => g (f v)) m.
Proof.
  induction m as [|[k' v'] m IH]; simpl; [reflexivity|].
  destruct (String.eqb k k') eqn:E; simpl; rewrite E; [reflexivity|now rewrite IH].
Qed.

Lemma map_adjust_fixed m k (f : A -> A) v :
  map_get m k = Some v -> f v = v -> map_adjust k f m = m.
Proof.
  induction m as [|[k' v'] m IH]; simpl; [reflexivity|].
  destruct (String.eqb k k').
  - intros [= ->] ->. reflexivity.
  - intros H1 H2. now rewrite IH.
Qed.

End JsMapMore.

(** ** The tree walk *)

Lemma walked_split p : walked (Path.split p) = Path.segments p.
Proof. reflexivity. Qed.

(** The loop of [_lookup] is the walk along the non-empty parts. *)
Lemma lookup_loop_resolve silent parts entry :
  _lookup_loop silent parts entry =
  match resolve (walked parts) entry with
  | Some e => Ok (Some e)
  | None => if silent then Ok None else Throw FileNotFound
  end.
Proof.
  revert entry. induction parts as [|part rest IH]; intros entry; simpl.
  - reflexivity.
  - destruct (Path.falsy part); simpl; [apply IH|].
    destruct (child_of entry part); [apply IH|reflexivity].
Qed.

Lemma resolve_app a b entry :
  resolve (a ++ b) entry =
  match resolve a entry with Some e => resolve b e | None => None end.
Proof.
  revert entry. induction a as [|s a IH]; intros entry; simpl; [reflexivity|].
  destruct (child_of entry s); [apply IH|reflexivity].
Qed.

Lemma resolve_file_stuck segs entry :
  isDirectory entry = false -> segs <> [] -> resolve segs entry = None.
Proof. destruct entry, segs; simpl; congruence. Qed.

Lemma update_at_resolved parts f entry d :
  resolve (walked parts) entry = Some d ->
  resolve (walked parts) (update_at parts f entry) = Some (f d).
Proof.
  revert entry. induction parts as [|part rest IH]; intros entry; simpl.
  - now intros [= ->].
  - destruct (Path.falsy part); simpl; [apply IH|].
    destruct entry as [|n c m s es]; simpl; [discriminate|].
    rewrite map_get_adjust_eq. destruct (map_get es part); simpl; [apply IH|discriminate].
Qed.

Lemma update_at_unresolved parts f entry :
  resolve (walked parts) entry = None -> update_at parts f entry = entry.
Proof.
  revert entry. induction parts as [|part rest IH]; intros entry; simpl.
  - discriminate.
  - destruct (Path.falsy part); simpl; [apply IH|].
    destruct entry as [|n c m s es]; simpl; [reflexivity|].
    destruct (map_get es part) as [child|] eqn:E.
    + intros H. f_equal. eapply map_adjust_fixed; eauto.
    + intros _. f_equal. now apply map_adjust_absent.
Qed.

Lemma update_at_compose parts f g entry :
  update_at parts g (update_at parts f entry) =
  update_at parts (fun e => g (f e)) entry.
Proof.
  revert entry. induction parts as [|part rest IH]; intros entry; simpl.
  - reflexivity.
  - destruct (Path.falsy part); [apply IH|].
    destruct entry as [|n c m s es]; simpl; [reflexivity|].
    f_equal. rewrite map_adjust_compose. apply map_adjust_ext, IH.
Qed.

Lemma update_at_ext parts f g entry d :
  resolve (walked parts) entry = Some d -> f d = g d ->
  update_at parts f entry = update_at parts g entry.
Proof.
  revert entry. induction parts as [|part rest IH]; intros entry; simpl.
  - now intros [= ->].
  - destruct (Path.falsy part); simpl; [apply IH|].
    destruct entry as [|n c m s es]; simpl; [reflexivity|].
    destruct (map_get es part) as [child|] eqn:E; [|discriminate].
    intros H Hd. f_equal.
    rewrite (map_adjust_as_set _ _ _ _ E), (map_adjust_as_set _ _ _ _ E).
    f_equal. now apply IH.
Qed.

(** ** Lookups leave the state alone *)

Lemma lookup_spec uri silent st :
  _lookup uri silent st =
  (match resolve (Path.segments (path uri)) (root st) with
   | Some e => Ok (Some e)
   | None => if silent then Ok None else Throw FileNotFound
   end, st).
Proof. unfold _lookup. now rewrite lookup_loop_resolve, walked_split. Qed.

Lemma lookupAsDirectory_spec uri st :
  _lookupAsDirectory uri false st =
  (match resolve (Path.segments (path uri)) (root st) with
   | Some e => if isDirectory e then Ok e else Throw (FileNotADirectory uri)
   | None => Throw FileNotFound
   end, st).
Proof.
  unfold _lookupAsDirectory, bind. rewrite lookup_spec.
  destruct (resolve _ _) as [[|]|]; reflexivity.
Qed.

Lemma lookupAsFile_spec uri st :
  _lookupAsFile uri false st =
  (match resolve (Path.segments (path uri)) (root st) with
   | Some e => if isDirectory e then Throw (FileIsADirectory uri) else Ok e
   | None => Throw FileNotFound
   end, st).
Proof.
  unfold _lookupAsFile, bind. rewrite lookup_spec.
  destruct (resolve _ _) as [[|]|]; reflexivity.
Qed.

Lemma lookupParent_spec uri st parent :
  _lookupParentDirectory uri st = (Ok parent, st) <->
  resolve (Path.segments (Path.dirname (path uri))) (root st) = Some parent /\
  isDirectory parent = true.
Proof.
  unfold _lookupParentDirectory. rewrite lookupAsDirectory_spec. simpl.
  destruct (resolve _ _) as [e|].
  - destruct (isDirectory e) eqn:E; split.
    + intros [= ->]. auto.
    + intros [[= ->] _]. reflexivity.
    + discriminate.
    + intros [[= ->] H]. congruence.
  - split; [discriminate|intros [[=] _]].
Qed.

(** For an absolute path with a last name, the entry at the path is the
    child of the parent directory that [writeFile] and [createDirectory]
    look at. *)
Lemma lookup_is_child_of_parent uri st parent :
  Path.is_absolute (path uri) = true ->
  Path.basename (path uri) <> "" ->
  _lookupParentDirectory uri st = (Ok parent, st) ->
  _lookup uri true st =
  (Ok (map_get (entries parent) (Path.basename (path uri))), st).
Proof.
  intros Habs Hb [Hres Hdir]%lookupParent_spec.
  rewrite lookup_spec, (segments_parent _ Habs Hb), resolve_app, Hres.
  destruct parent as [|n c m s es]; [discriminate|]. simpl.
  destruct (map_get es (Path.basename (path uri))); reflexivity.
Qed.

(** [stat] never returns [undefined]. *)
Lemma stat_defined uri st : fst (stat uri st) <> Ok None.
Proof.
  unfold stat. rewrite lookup_spec. simpl.
  destruct (resolve _ _); discriminate.
Qed.

(** ** [_lookup] and [stat] *)

(** C7.  Path lookup splits the path on [/], skips the empty parts and
    walks the child maps from the root: when every segment resolves it
    returns the entry reached, in both modes; an empty or all-slash path
    returns the root; at the first segment that has no child, the
    non-silent mode throws [FileNotFound] and the silent mode returns
    [undefined].  The state is never changed. *)
Theorem lookup_walks_segments (uri : Uri) (st : State) :
  let segs :=
    List.filter (fun p => negb (Path.falsy p)) (Path.split (path uri)) in
  (forall silent e,
      resolve segs (root st) = Some e ->
      _lookup uri silent st = (Ok (Some e), st)) /\
  (forall silent,
      forallb Path.is_slash (list_ascii_of_string (path uri)) = true ->
      _lookup uri silent st = (Ok (Some (root st)), st)) /\
  (forall pre seg rest d,
      segs = pre ++ seg :: rest ->
      resolve pre (root st) = Some d ->
      child_of d seg = None ->
      _lookup uri false st = (Throw FileNotFound, st) /\
      _lookup uri true st = (Ok None, st)).
Proof.
  intros segs. split; [|split].
  - intros silent e Hall. rewrite lookup_spec.
    change (Path.segments (path uri)) with segs. now rewrite Hall.
  - intros silent Hslashes.
    rewrite lookup_spec, (segments_all_slashes _ Hslashes). reflexivity.
  - intros pre seg rest d Hsegs Hpre Hchild. rewrite !lookup_spec.
    change (Path.segments (path uri)) with segs.
    rewrite Hsegs, resolve_app, Hpre. simpl. rewrite Hchild. split; reflexivity.
Qed.

Lemma lookup_walks_segments_witness :
  _lookup Sample.home false Sample.loaded =
    (Ok (Some (File "home.html" 100 100 2 Sample.hello)), Sample.loaded) /\
  _lookup Sample.other false Sample.loaded =
    (Throw FileNotFound, Sample.loaded) /\
  _lookup Sample.other true Sample.loaded = (Ok None, Sample.loaded).
Proof.
  destruct (lookup_walks_segments Sample.home Sample.loaded) as (Hfound & _ & _).
  destruct (lookup_walks_segments Sample.other Sample.loaded) as (_ & _ & Hmiss).
  split; [now apply Hfound|].
  apply (Hmiss ["site"; "web-pages"] "other.html" [] Sample.webPagesDir);
    reflexivity.
Defined.

(** C10.  When a strict prefix of the path resolves to a [File] and
    segments remain, the non-silent lookup throws [FileNotFound] (not
    [FileNotADirectory]), the silent lookup returns [undefined], and
    [stat] fails with [FileNotFound]. *)
Theorem lookup_below_file_not_found (uri : Uri) (st : State)
    (pre rest : list string) (f : Entry) :
  Path.segments (path uri) = pre ++ rest ->
  rest <> [] ->
  resolve pre (root st) = Some f ->
  isFile f = true ->
  _lookup uri false st = (Throw FileNotFound, st) /\
  _lookup uri true st = (Ok None, st) /\
  stat uri st = (Throw FileNotFound, st) /\
  fst (stat uri st) <> Throw (FileNotADirectory uri).
Proof.
  intros Hsegs Hrest Hpre Hfile.
  assert (Hnone : resolve (Path.segments (path uri)) (root st) = None).
  { rewrite Hsegs, resolve_app, Hpre. apply resolve_file_stuck; [|exact Hrest].
    unfold isFile in Hfile. now apply negb_true_iff in Hfile. }
  unfold stat. rewrite !lookup_spec, Hnone. simpl. repeat split; discriminate.
Qed.

Lemma lookup_below_file_not_found_witness :
  Path.segments (path Sample.belowHome) =
    ["site"; "web-pages"; "home.html"] ++ ["draft"] /\
  resolve ["site"; "web-pages"; "home.html"] (root Sample.loaded) =
    Some (File "home.html" 100 100 2 Sample.hello) /\
  stat Sample.belowHome Sample.loaded = (Throw FileNotFound, Sample.loaded).
Proof.
  split; [reflexivity|]. split; [reflexivity|].
  apply (lookup_below_file_not_found Sample.belowHome Sample.loaded
           ["site"; "web-pages"; "home.html"] ["draft"]
           (File "home.html" 100 100 2 Sample.hello));
    (reflexivity || discriminate).
Defined.

(** C8.  [stat] on a path without an entry fails with [FileNotFound]
    (it never starts a load: the state, trace included, is unchanged);
    on a path with an entry it returns that entry, whose [FileStat] view
    is its type, creation time, modification time and size. *)
Theorem stat_not_found_or_entry (uri : Uri) (st : State) :
  (resolve (Path.segments (path uri)) (root st) = None ->
   stat uri st = (Throw FileNotFound, st)) /\
  (forall e,
      resolve (Path.segments (path uri)) (root st) = Some e ->
      stat uri st = (Ok (Some e), st) /\
      stat_of e = mkFileStat (type e) (ctime e) (mtime e) (size e)).
Proof.
  unfold stat. split.
  - intros H. now rewrite lookup_spec, H.
  - intros e H. now rewrite lookup_spec, H.
Qed.

Lemma stat_not_found_or_entry_witness :
  resolve (Path.segments (path Sample.other)) (root Sample.loaded) = None /\
  stat Sample.other Sample.loaded = (Throw FileNotFound, Sample.loaded) /\
  stat Sample.webPages Sample.loaded =
    (Ok (Some Sample.webPagesDir), Sample.loaded).
Proof.
  destruct (stat_not_found_or_entry Sample.other Sample.loaded) as (Hmiss & _).
  destruct (stat_not_found_or_entry Sample.webPages Sample.loaded) as (_ & Hhit).
  split; [reflexivity|]. split; [now apply Hmiss|].
  now apply (Hhit Sample.webPagesDir).
Defined.

(** ** [writeFile] case by case *)

(** Unfolds the plumbing of the monad. *)
Ltac run_vfs :=
  unfold _fireSoon, mutate, modify, call, Date_now, get_state, ret, throw,
    bind, set_root, push_events, set_trace, set_context; simpl.

Section WriteFileFacts.

Variable host : Host.
Variables (uri : Uri) (content : list Byte.byte) (st : State) (parent : Entry).

Abbreviation basename := (Path.basename (path uri)).
Abbreviation dirname := (with_path uri (Path.dirname (path uri))).

Hypothesis Hparent : _lookupParentDirectory uri st = (Ok parent, st).

Lemma parent_resolved :
  resolve (walked (Path.split (path dirname))) (root st) = Some parent.
Proof. now apply lookupParent_spec in Hparent as [H _]. Qed.

Lemma parent_is_directory :
  exists n c m s es, parent = Directory n c m s es.
Proof.
  apply lookupParent_spec in Hparent as [_ H].
  destruct parent; [discriminate|do 5 eexists; reflexivity].
Qed.

Lemma writeFile_on_directory create overwrite e :
  map_get (entries parent) basename = Some e ->
  isDirectory e = true ->
  writeFile host uri content create overwrite st =
  (Throw (FileIsADirectory uri), st).
Proof.
  intros He Hd. unfold writeFile, bind. rewrite Hparent.
  rewrite He. simpl. now rewrite Hd.
Qed.

Lemma writeFile_absent_no_create overwrite :
  map_get (entries parent) basename = None ->
  writeFile host uri content false overwrite st = (Throw FileNotFound, st).
Proof.
  intros He. unfold writeFile, bind. rewrite Hparent.
  rewrite He. reflexivity.
Qed.

Lemma writeFile_file_exists n c m s d :
  map_get (entries parent) basename = Some (File n c m s d) ->
  writeFile host uri content true false st = (Throw (FileExists uri), st).
Proof.
  intros He. unfold writeFile, bind. rewrite Hparent.
  rewrite He. reflexivity.
Qed.

Lemma adjust_after_set now f :
  update_at (Path.split (path dirname))
    (adjust_child basename (write_content now content))
    (update_at (Path.split (path dirname)) (set_child basename f) (root st)) =
  written uri content now f (root st).
Proof.
  unfold written. change (Path.dirname (path uri)) with (path dirname). rewrite update_at_compose.
  apply (update_at_ext _ _ _ _ _ parent_resolved).
  destruct parent_is_directory as (n & c & m & s & es & ->). simpl.
  now rewrite map_adjust_set.
Qed.

Lemma adjust_existing now f :
  map_get (entries parent) basename = Some f ->
  update_at (Path.split (path dirname))
    (adjust_child basename (write_content now content)) (root st) =
  written uri content now f (root st).
Proof.
  intros He. unfold written.
  change (Path.dirname (path uri)) with (path dirname).
  apply (update_at_ext _ _ _ _ _ parent_resolved).
  destruct parent_is_directory as (n & c & m & s & es & ->). simpl in *.
  now rewrite (map_adjust_as_set _ _ _ _ He).
Qed.

Lemma writeFile_creates overwrite :
  map_get (entries parent) basename = None ->
  writeFile host uri content true overwrite st =
  (Ok tt,
   mkState (written uri content (clock st) (File basename (clock st) (clock st) 0 []) (root st))
     (_bufferedEvents st ++ [mkEvent Created uri; mkEvent Changed uri])
     (context st) (clock st) (trace st)).
Proof.
  intros He. unfold writeFile, bind. rewrite Hparent.
  rewrite He. simpl.
  run_vfs.
  rewrite adjust_after_set, <- app_assoc. reflexivity.
Qed.

Lemma writeFile_clean create overwrite n c m s d :
  map_get (entries parent) basename = Some (File n c m s d) ->
  create && negb overwrite = false ->
  hasDirty host st uri = false ->
  writeFile host uri content create overwrite st =
  (Ok tt,
   mkState (written uri content (clock st) (File n c m s d) (root st))
     (_bufferedEvents st ++ [mkEvent Changed uri])
     (context st) (clock st) (trace st)).
Proof.
  intros He Hopt Hclean. unfold writeFile, bind. rewrite Hparent.
  rewrite He. simpl. rewrite Hopt. simpl. rewrite Hclean. simpl.
  run_vfs.
  now rewrite (adjust_existing _ _ He).
Qed.

Lemma writeFile_dirty_saved create overwrite n c m s d :
  map_get (entries parent) basename = Some (File n c m s d) ->
  create && negb overwrite = false ->
  hasDirty host st uri = true ->
  patch host (freshToken host (dataverseAccessToken (context st)))
    (patchRequestUrl host uri st) = None ->
  writeFile host uri content create overwrite st =
  (Ok tt,
   mkState (written uri content (clock st) (File n c m s d) (root st))
     (_bufferedEvents st ++ [mkEvent Changed uri])
     (saved_context host uri st true) (clock st) (trace st ++ save_calls host uri st)).
Proof.
  intros He Hopt Hdirty Hpatch. unfold writeFile, bind. rewrite Hparent.
  rewrite He. simpl. rewrite Hopt. simpl. rewrite Hdirty.
  unfold _saveFileToDataverseFromVFS, reAuthenticate, saveData. run_vfs.
  fold (patchRequestUrl host uri st). rewrite Hpatch. run_vfs.
  rewrite (adjust_existing _ _ He), <- !app_assoc. reflexivity.
Qed.

Lemma writeFile_dirty_save_fails create overwrite n c m s d statusText :
  map_get (entries parent) basename = Some (File n c m s d) ->
  create && negb overwrite = false ->
  hasDirty host st uri = true ->
  patch host (freshToken host (dataverseAccessToken (context st)))
    (patchRequestUrl host uri st) = Some statusText ->
  writeFile host uri content create overwrite st =
  (Throw (JsError statusText),
   mkState (root st) (_bufferedEvents st) (saved_context host uri st false) (clock st)
     (trace st ++ save_calls host uri st ++ [showErrorDialog statusText])).
Proof.
  intros He Hopt Hdirty Hpatch. unfold writeFile, bind. rewrite Hparent.
  rewrite He. simpl. rewrite Hopt. simpl. rewrite Hdirty.
  unfold _saveFileToDataverseFromVFS, reAuthenticate, saveData. run_vfs.
  fold (patchRequestUrl host uri st). rewrite Hpatch. run_vfs.
  rewrite <- !app_assoc. reflexivity.
Qed.

End WriteFileFacts.

Example sample_loaded_tree :
  root Sample.loaded =
  Directory "" 0 100 1
    [("site",
      Directory "site" 100 100 1
        [("web-pages",
          Directory "web-pages" 100 100 0
            [("home.html", File "home.html" 100 100 2 Sample.hello)])])].
Proof. reflexivity. Qed.

Example sample_read_directory :
  fst (readDirectory (Sample.sample_host true) Sample.webPages Sample.loaded) =
  Ok [("home.html", FileT)].
Proof. reflexivity. Qed.

Example sample_read_file :
  fst (readFile (Sample.sample_host true) Sample.home Sample.loaded) =
  Ok Sample.hello.
Proof. reflexivity. Qed.

Example sample_dirty :
  hasDirty (Sample.sample_host true) Sample.edited Sample.home = true.
Proof. reflexivity. Qed.

(** ** [writeFile]: the whole behaviour under an existing parent *)

Lemma writeFile_cases (host : Host) (uri : Uri) (content : list Byte.byte)
    (create overwrite : bool) (st : State) (parent : Entry) :
  _lookupParentDirectory uri st = (Ok parent, st) ->
  writeFile host uri content create overwrite st =
  match map_get (entries parent) (Path.basename (path uri)) with
  | Some (Directory _ _ _ _ _) => (Throw (FileIsADirectory uri), st)
  | None =>
      if create
      then (Ok tt,
            mkState
              (written uri content (clock st)
                 (File (Path.basename (path uri)) (clock st) (clock st) 0 [])
                 (root st))
              (_bufferedEvents st ++ [mkEvent Created uri; mkEvent Changed uri])
              (context st) (clock st) (trace st))
      else (Throw FileNotFound, st)
  | Some (File n c m s d) =>
      if create && negb overwrite then (Throw (FileExists uri), st)
      else if hasDirty host st uri
      then match patch host (freshToken host (dataverseAccessToken (context st)))
                   (patchRequestUrl host uri st) with
           | None =>
               (Ok tt,
                mkState (written uri content (clock st) (File n c m s d) (root st))
                  (_bufferedEvents st ++ [mkEvent Changed uri])
                  (saved_context host uri st true) (clock st)
                  (trace st ++ save_calls host uri st))
           | Some statusText =>
               (Throw (JsError statusText),
                mkState (root st) (_bufferedEvents st)
                  (saved_context host uri st false) (clock st)
                  (trace st ++ save_calls host uri st ++
                   [showErrorDialog statusText]))
           end
      else (Ok tt,
            mkState (written uri content (clock st) (File n c m s d) (root st))
              (_bufferedEvents st ++ [mkEvent Changed uri])
              (context st) (clock st) (trace st))
  end.
Proof.
  intros Hparent.
  destruct (map_get (entries parent) (Path.basename (path uri)))
    as [[n c m s d|n c m s es]|] eqn:He.
  - destruct (create && negb overwrite) eqn:Hopt.
    + apply andb_prop in Hopt as [-> Ho]. apply negb_true_iff in Ho. subst.
      eapply writeFile_file_exists; eauto.
    + destruct (hasDirty host st uri) eqn:Hd.
      * destruct (patch host _ _) as [statusText|] eqn:Hp.
        -- eapply writeFile_dirty_save_fails; eauto.
        -- eapply writeFile_dirty_saved; eauto.
      * eapply writeFile_clean; eauto.
  - eapply writeFile_on_directory; eauto.
  - destruct create.
    + eapply writeFile_creates; eauto.
    + eapply writeFile_absent_no_create; eauto.
Qed.

Lemma written_parent (uri : Uri) (content : list Byte.byte) (now : Z)
    (f parent r : Entry) :
  resolve (Path.segments (Path.dirname (path uri))) r = Some parent ->
  resolve (Path.segments (Path.dirname (path uri))) (written uri content now f r) =
  Some (set_child (Path.basename (path uri)) (write_content now content f) parent).
Proof. intros H. unfold written. now apply update_at_resolved. Qed.

Lemma count_calls_app p a b :
  count_calls p (a ++ b) = (count_calls p a + count_calls p b)%nat.
Proof. unfold count_calls. now rewrite List.filter_app, length_app. Qed.

Lemma hasDirty_same_files host uri st1 st2 :
  fileDataMap (context st1) = fileDataMap (context st2) ->
  hasDirty host st1 uri = hasDirty host st2 uri.
Proof. unfold hasDirty. now intros ->. Qed.

(** The file that [written] leaves under the parent. *)
Lemma written_file (uri : Uri) (content : list Byte.byte) (st st' : State)
    (parent : Entry) (n : string) (c m s : Z) (d : list Byte.byte) :
  _lookupParentDirectory uri st = (Ok parent, st) ->
  root st' = written uri content (clock st) (File n c m s d) (root st) ->
  exists parent' f,
    _lookupParentDirectory uri st' = (Ok parent', st') /\
    entries parent' = map_set (entries parent) (Path.basename (path uri)) f /\
    map_get (entries parent') (Path.basename (path uri)) = Some f /\
    f = File n c (clock st) (Z.of_nat (length content)) content.
Proof.
  intros Hparent Hroot. apply lookupParent_spec in Hparent as [Hres Hdir].
  destruct parent as [|pn pc pm ps es]; [discriminate|].
  eexists _, _. split; [|split; [|split; [|reflexivity]]].
  - apply lookupParent_spec. rewrite Hroot. split.
    + apply written_parent. exact Hres.
    + reflexivity.
  - reflexivity.
  - simpl. apply map_get_set_eq.
Qed.

(** C2 (amended).  Under an existing parent directory, [writeFile] fails
    with [FileIsADirectory] when the entry at the path is a [Directory];
    with [FileNotFound] when there is no entry and [create] is false;
    with [FileExists] when a [File] entry exists, [create] is true and
    [overwrite] is false.  In each case the state, and so the tree, is
    unchanged. *)
Theorem writeFile_rejections (host : Host) (uri : Uri)
    (content : list Byte.byte) (create overwrite : bool) (st : State)
    (parent : Entry) :
  _lookupParentDirectory uri st = (Ok parent, st) ->
  (forall e,
      map_get (entries parent) (Path.basename (path uri)) = Some e ->
      isDirectory e = true ->
      writeFile host uri content create overwrite st =
      (Throw (FileIsADirectory uri), st)) /\
  (map_get (entries parent) (Path.basename (path uri)) = None ->
   create = false ->
   writeFile host uri content create overwrite st = (Throw FileNotFound, st)) /\
  (forall e,
      map_get (entries parent) (Path.basename (path uri)) = Some e ->
      isFile e = true ->
      create = true -> overwrite = false ->
      writeFile host uri content create overwrite st =
      (Throw (FileExists uri), st)).
Proof.
  intros Hparent. rewrite (writeFile_cases _ _ _ _ _ _ _ Hparent).
  repeat split.
  - intros e -> He. destruct e; [discriminate|reflexivity].
  - now intros -> ->.
  - intros e -> He -> ->. destruct e; [reflexivity|discriminate].
Qed.

Lemma writeFile_rejections_witness :
  _lookupParentDirectory Sample.home Sample.loaded =
    (Ok Sample.webPagesDir, Sample.loaded) /\
  writeFile (Sample.sample_host true) Sample.home Sample.bye true false
    Sample.loaded = (Throw (FileExists Sample.home), Sample.loaded).
Proof.
  split; [reflexivity|].
  eapply (proj2 (proj2 (writeFile_rejections (Sample.sample_host true)
            Sample.home Sample.bye true false Sample.loaded Sample.webPagesDir
            eq_refl))); reflexivity.
Defined.

(** C2 as stated fails: a [Directory] entry exists at the path, [create]
    is true and [overwrite] is false, and the error is
    [FileIsADirectory], not [FileExists]. *)
Lemma writeFile_directory_is_not_exists_error :
  _lookupParentDirectory Sample.webPages Sample.loaded =
    (Ok Sample.siteDir, Sample.loaded) /\
  map_get (entries Sample.siteDir) (Path.basename (path Sample.webPages)) =
    Some Sample.webPagesDir /\
  fst (writeFile (Sample.sample_host true) Sample.webPages Sample.bye true
         false Sample.loaded) = Throw (FileIsADirectory Sample.webPages) /\
  fst (writeFile (Sample.sample_host true) Sample.webPages Sample.bye true
         false Sample.loaded) <> Throw (FileExists Sample.webPages).
Proof. repeat split; try reflexivity. discriminate. Qed.

(** One save: the token is refreshed, the PATCH request is made, and the
    tree, the event buffer and the clock are left alone. *)
Lemma saveFile_run (host : Host) (uri : Uri) (st : State) :
  _saveFileToDataverseFromVFS host uri st =
  match patch host (freshToken host (dataverseAccessToken (context st)))
          (patchRequestUrl host uri st) with
  | None =>
      (Ok tt,
       mkState (root st) (_bufferedEvents st) (saved_context host uri st true)
         (clock st)
         (trace st ++
          [reAuthenticateCall;
           saveDataCall (freshToken host (dataverseAccessToken (context st)))
             (patchRequestUrl host uri st) uri]))
  | Some statusText =>
      (Throw (JsError statusText),
       mkState (root st) (_bufferedEvents st) (saved_context host uri st false)
         (clock st)
         (trace st ++
          [reAuthenticateCall;
           saveDataCall (freshToken host (dataverseAccessToken (context st)))
             (patchRequestUrl host uri st) uri;
           showErrorDialog statusText]))
  end.
Proof.
  unfold _saveFileToDataverseFromVFS, reAuthenticate, saveData. run_vfs.
  fold (patchRequestUrl host uri st).
  destruct (patch host _ _); run_vfs; rewrite <- !app_assoc; reflexivity.
Qed.

(** C9.  On an existing dirty file, when the remote save throws, the
    same error leaves [writeFile], the tree is the one before the call
    (the entry keeps its data, size and modification time), no event is
    buffered, and the file is still dirty. *)
Theorem writeFile_save_failure_is_atomic (host : Host) (uri : Uri)
    (content : list Byte.byte) (create overwrite : bool) (st : State)
    (parent : Entry) (n : string) (c m s : Z) (d : list Byte.byte)
    (e : Error) :
  _lookupParentDirectory uri st = (Ok parent, st) ->
  map_get (entries parent) (Path.basename (path uri)) = Some (File n c m s d) ->
  create && negb overwrite = false ->
  hasDirty host st uri = true ->
  fst (_saveFileToDataverseFromVFS host uri st) = Throw e ->
  let result := writeFile host uri content create overwrite st in
  fst result = Throw e /\
  root (snd result) = root st /\
  _lookupParentDirectory uri (snd result) = (Ok parent, snd result) /\
  _bufferedEvents (snd result) = _bufferedEvents st /\
  hasDirty host (snd result) uri = true.
Proof.
  intros Hparent He Hopt Hdirty Hsave result. subst result.
  rewrite saveFile_run in Hsave.
  rewrite (writeFile_cases _ _ _ _ _ _ _ Hparent), He, Hopt, Hdirty.
  destruct (patch host _ _) as [statusText|]; [|discriminate].
  simpl in *. repeat split.
  - exact Hsave.
  - apply lookupParent_spec. now apply lookupParent_spec in Hparent.
  - rewrite <- Hdirty. now apply hasDirty_same_files.
Qed.

Lemma writeFile_save_failure_is_atomic_witness :
  _lookupParentDirectory Sample.home Sample.edited =
    (Ok Sample.webPagesDir, Sample.edited) /\
  fst (_saveFileToDataverseFromVFS (Sample.sample_host false) Sample.home
         Sample.edited) = Throw (JsError "Bad Request") /\
  fst (writeFile (Sample.sample_host false) Sample.home Sample.bye true true
         Sample.edited) = Throw (JsError "Bad Request") /\
  root (snd (writeFile (Sample.sample_host false) Sample.home Sample.bye true
               true Sample.edited)) = root Sample.edited.
Proof.
  split; [reflexivity|]. split; [reflexivity|].
  pose proof (writeFile_save_failure_is_atomic (Sample.sample_host false)
                Sample.home Sample.bye true true Sample.edited
                Sample.webPagesDir "home.html" 100 100 2 Sample.hello
                (JsError "Bad Request") eq_refl eq_refl eq_refl eq_refl eq_refl)
    as (H1 & H2 & _).
  split; assumption.
Defined.

(** C1 (amended).  Under an existing parent directory:
    - when the target is an existing [File] whose [FileData] is dirty and
      the call is not rejected ([create] without [overwrite]), exactly
      one [saveData] call is made; if the save throws, the error is
      thrown with the tree untouched and the file still dirty; if it
      succeeds, the content is applied afterwards and the dirty flag is
      cleared;
    - every successful call leaves a [File] at the path with the new
      content, its byte length as size and the current time as
      modification time, and buffers a [Changed] event, preceded by a
      [Created] event when the entry is new;
    - the dirty flag goes from set to cleared only in a call whose save
      succeeded. *)
Theorem writeFile_saves_then_writes (host : Host) (uri : Uri)
    (content : list Byte.byte) (create overwrite : bool) (st : State)
    (parent : Entry) :
  _lookupParentDirectory uri st = (Ok parent, st) ->
  let entry := map_get (entries parent) (Path.basename (path uri)) in
  let result := writeFile host uri content create overwrite st in
  let saved := fst (_saveFileToDataverseFromVFS host uri st) in
  (forall n c m s d,
      entry = Some (File n c m s d) ->
      create && negb overwrite = false ->
      hasDirty host st uri = true ->
      count_calls is_saveData (trace (snd result)) =
        S (count_calls is_saveData (trace st)) /\
      (forall e,
          saved = Throw e ->
          fst result = Throw e /\
          root (snd result) = root st /\
          hasDirty host (snd result) uri = true) /\
      (saved = Ok tt ->
       fst result = Ok tt /\
       root (snd result) =
         written uri content (clock st) (File n c m s d) (root st) /\
       hasDirty host (snd result) uri = false)) /\
  (fst result = Ok tt ->
   exists parent' f,
     _lookupParentDirectory uri (snd result) = (Ok parent', snd result) /\
     entries parent' = map_set (entries parent) (Path.basename (path uri)) f /\
     map_get (entries parent') (Path.basename (path uri)) = Some f /\
     isFile f = true /\
     data f = content /\
     size f = Z.of_nat (length content) /\
     mtime f = clock (snd result) /\
     _bufferedEvents (snd result) =
       _bufferedEvents st ++
       (if defined entry then [] else [mkEvent Created uri]) ++
       [mkEvent Changed uri]) /\
  (hasDirty host st uri = true ->
   hasDirty host (snd result) uri = false ->
   fst result = Ok tt /\ saved = Ok tt /\
   count_calls is_saveData (trace (snd result)) =
     S (count_calls is_saveData (trace st))).
Proof.
  intros Hparent entry result saved. subst result saved.
  rewrite (writeFile_cases _ _ _ _ _ _ _ Hparent), saveFile_run. fold entry.
  assert (Hcount : forall tail,
             count_calls is_saveData tail = 0%nat ->
             count_calls is_saveData (trace st ++ save_calls host uri st ++ tail) =
             S (count_calls is_saveData (trace st))).
  { intros tail Ht. rewrite !count_calls_app, Ht. unfold save_calls. simpl. lia. }
  assert (Hfile : forall st' n c m s d,
             root st' = written uri content (clock st) (File n c m s d) (root st) ->
             clock st' = clock st ->
             exists parent' f,
               _lookupParentDirectory uri st' = (Ok parent', st') /\
               entries parent' =
                 map_set (entries parent) (Path.basename (path uri)) f /\
               map_get (entries parent') (Path.basename (path uri)) = Some f /\
               isFile f = true /\ data f = content /\
               size f = Z.of_nat (length content) /\ mtime f = clock st').
  { intros st' n c m s d Hroot Hclock.
    destruct (written_file _ _ _ _ _ _ _ _ _ _ Hparent Hroot)
      as (parent' & f & H1 & H3 & H2 & ->).
    exists parent', (File n c (clock st) (Z.of_nat (length content)) content).
    rewrite Hclock. repeat split; assumption. }
  split; [|split].
  - intros n c m s d -> Hopt Hdirty. rewrite Hopt, Hdirty.
    destruct (patch host _ _) as [statusText|]; simpl; split; [|split| |split].
    + now apply Hcount.
    + intros e [= <-]. repeat split.
      rewrite <- Hdirty. now apply hasDirty_same_files.
    + discriminate.
    + rewrite <- (app_nil_r (save_calls host uri st)). now apply Hcount.
    + discriminate.
    + intros _. repeat split.
      unfold hasDirty, saved_context. simpl. rewrite lookup_alter_eq.
      destruct (fileDataMap (context st) !! fsPath host uri); reflexivity.
  - destruct entry as [[n c m s d|n c m s es]|]; simpl.
    + destruct (create && negb overwrite); [discriminate|].
      destruct (hasDirty host st uri).
      * destruct (patch host _ _); [discriminate|]. simpl. intros _.
        destruct (Hfile (mkState (written uri content (clock st) (File n c m s d) (root st))
                           (_bufferedEvents st ++ [mkEvent Changed uri])
                           (saved_context host uri st true) (clock st)
                           (trace st ++ save_calls host uri st))
                    n c m s d eq_refl eq_refl) as (p' & f & H).
        exists p', f. intuition.
      * simpl. intros _.
        destruct (Hfile (mkState (written uri content (clock st) (File n c m s d) (root st))
                           (_bufferedEvents st ++ [mkEvent Changed uri])
                           (context st) (clock st) (trace st))
                    n c m s d eq_refl eq_refl) as (p' & f & H).
        exists p', f. intuition.
    + discriminate.
    + destruct create; [|discriminate]. simpl. intros _.
      destruct (Hfile (mkState
                         (written uri content (clock st)
                            (File (Path.basename (path uri)) (clock st) (clock st) 0 [])
                            (root st))
                         (_bufferedEvents st ++ [mkEvent Created uri; mkEvent Changed uri])
                         (context st) (clock st) (trace st))
                  _ _ _ _ _ eq_refl eq_refl) as (p' & f & H).
      exists p', f. intuition.
  - intros Hdirty.
    destruct entry as [[n c m s d|n c m s es]|]; simpl.
    + destruct (create && negb overwrite); simpl; [congruence|].
      rewrite Hdirty. destruct (patch host _ _); simpl.
      * intros H. exfalso. rewrite <- Hdirty in H at 2.
        rewrite (hasDirty_same_files host uri _ st) in H by reflexivity.
        rewrite Hdirty in H. discriminate.
      * intros _. repeat split.
        rewrite <- (app_nil_r (save_calls host uri st)). now apply Hcount.
    + congruence.
    + destruct create; simpl; [|congruence].
      intros H. rewrite (hasDirty_same_files host uri _ st) in H by reflexivity.
      congruence.
Qed.

Lemma writeFile_saves_then_writes_witness :
  _lookupParentDirectory Sample.home Sample.edited =
    (Ok Sample.webPagesDir, Sample.edited) /\
  count_calls is_saveData
    (trace (snd (writeFile (Sample.sample_host true) Sample.home Sample.bye
                   true true Sample.edited))) = 1%nat /\
  hasDirty (Sample.sample_host true)
    (snd (writeFile (Sample.sample_host true) Sample.home Sample.bye true true
            Sample.edited)) Sample.home = false.
Proof.
  split; [reflexivity|].
  destruct (writeFile_saves_then_writes (Sample.sample_host true) Sample.home
              Sample.bye true true Sample.edited Sample.webPagesDir eq_refl)
    as (Hsave & _ & _).
  destruct (Hsave "home.html" 100 100 2 Sample.hello eq_refl eq_refl eq_refl)
    as (Hcount & _ & Hok).
  split; [exact Hcount|]. now apply Hok.
Defined.

(** C1 as stated fails: the target exists and is dirty, the parent
    exists, and the call is rejected with [FileExists] before any save
    call is made. *)
Lemma writeFile_rejected_dirty_file_is_not_saved :
  _lookupParentDirectory Sample.home Sample.edited =
    (Ok Sample.webPagesDir, Sample.edited) /\
  map_get (entries Sample.webPagesDir) (Path.basename (path Sample.home)) =
    Some (File "home.html" 100 100 2 Sample.hello) /\
  hasDirty (Sample.sample_host true) Sample.edited Sample.home = true /\
  writeFile (Sample.sample_host true) Sample.home Sample.bye true false
    Sample.edited = (Throw (FileExists Sample.home), Sample.edited) /\
  count_calls is_saveData
    (trace (snd (writeFile (Sample.sample_host true) Sample.home Sample.bye
                   true false Sample.edited))) = 0%nat.
Proof. repeat split. Qed.

(** ** [createDirectory] *)

Lemma createDirectory_cases (uri : Uri) (st : State) :
  createDirectory uri st =
  match resolve (Path.segments (path uri)) (root st) with
  | Some _ => (Ok tt, st)
  | None =>
      match resolve (Path.segments (Path.dirname (path uri))) (root st) with
      | Some parent =>
          if isDirectory parent
          then (Ok tt,
                mkState
                  (update_at (Path.split (Path.dirname (path uri)))
                     (add_directory (clock st)
                        (Directory (Path.basename (path uri)) (clock st)
                           (clock st) 0 []))
                     (root st))
                  (_bufferedEvents st ++
                   [mkEvent Changed (with_path uri (Path.dirname (path uri)));
                    mkEvent Created uri])
                  (context st) (clock st) (trace st))
          else (Throw (FileNotADirectory
                         (with_path uri (Path.dirname (path uri)))), st)
      | None => (Throw FileNotFound, st)
      end
  end.
Proof.
  unfold createDirectory. unfold bind at 1. rewrite lookup_spec.
  destruct (resolve (Path.segments (path uri)) (root st)); [reflexivity|].
  unfold bind at 1. rewrite lookupAsDirectory_spec. simpl.
  destruct (resolve _ _) as [parent|]; [|reflexivity].
  destruct (isDirectory parent); reflexivity.
Qed.

Lemma absent_child_of_parent (p : string) (r parent : Entry) :
  Path.is_absolute p = true ->
  resolve (Path.segments p) r = None ->
  resolve (Path.segments (Path.dirname p)) r = Some parent ->
  Path.basename p <> "" /\ child_of parent (Path.basename p) = None.
Proof.
  intros Habs Hnone Hparent.
  assert (Hb : Path.basename p <> "").
  { intros E. rewrite (segments_no_basename _ Habs E) in Hnone. discriminate. }
  split; [exact Hb|].
  rewrite (segments_parent _ Habs Hb), resolve_app, Hparent in Hnone.
  simpl in Hnone. now destruct (child_of parent (Path.basename p)).
Qed.

(** C3.  [createDirectory] is idempotent on absolute paths.  When an
    entry exists at the path the call changes nothing and buffers no
    event.  When none
    exists and the parent directory does, the call sets one new, empty
    [Directory] under the parent (updating the parent's modification
    time and size) and buffers [Changed] for the parent and [Created]
    for the new directory.  When the parent lookup fails, its error is
    thrown and nothing changes.  For an absolute path, and not for
    every path, the new entry is appended to the parent's entries,
    it is what a lookup of the path then finds, and a second call on the
    resulting state changes nothing: the entry is there once and
    [Created] is buffered once. *)
Theorem createDirectory_idempotent (uri : Uri) (st : State) :
  let dirname := with_path uri (Path.dirname (path uri)) in
  let basename := Path.basename (path uri) in
  let entry := Directory basename (clock st) (clock st) 0 [] in
  (forall e,
      _lookup uri true st = (Ok (Some e), st) ->
      createDirectory uri st = (Ok tt, st)) /\
  (forall n c m s es,
      _lookup uri true st = (Ok None, st) ->
      _lookupAsDirectory dirname false st = (Ok (Directory n c m s es), st) ->
      let st' := snd (createDirectory uri st) in
      fst (createDirectory uri st) = Ok tt /\
      _lookupAsDirectory dirname false st' =
        (Ok (Directory n c (clock st) (s + 1) (map_set es basename entry)), st') /\
      _bufferedEvents st' =
        _bufferedEvents st ++ [mkEvent Changed dirname; mkEvent Created uri] /\
      (Path.is_absolute (path uri) = true ->
       map_set es basename entry = es ++ [(basename, entry)] /\
       _lookup uri true st' = (Ok (Some entry), st') /\
       createDirectory uri st' = (Ok tt, st'))) /\
  (forall e,
      _lookup uri true st = (Ok None, st) ->
      _lookupAsDirectory dirname false st = (Throw e, st) ->
      createDirectory uri st = (Throw e, st)).
Proof.
  intros dirname basename entry. split; [|split].
  - intros e. rewrite lookup_spec, createDirectory_cases.
    destruct (resolve (Path.segments (path uri)) (root st)); [reflexivity|discriminate].
  - intros n c m s es. rewrite lookup_spec, lookupAsDirectory_spec.
    unfold dirname at 1. cbn [path with_path].
    destruct (resolve (Path.segments (path uri)) (root st)) eqn:Hnone; [discriminate|].
    intros _.
    destruct (resolve (Path.segments (Path.dirname (path uri))) (root st))
      as [parent|] eqn:Hparent; [|discriminate].
    destruct (isDirectory parent) eqn:Hdir; [|discriminate].
    intros [= ->].
    assert (Hroot' :
      resolve (Path.segments (Path.dirname (path uri)))
        (root (snd (createDirectory uri st))) =
      Some (Directory n c (clock st) (s + 1) (map_set es basename entry))).
    { rewrite createDirectory_cases, Hnone, Hparent. simpl.
      now rewrite (update_at_resolved _ _ _ _ Hparent). }
    cbv zeta. split; [|split; [|split]].
    + now rewrite createDirectory_cases, Hnone, Hparent.
    + rewrite lookupAsDirectory_spec. unfold dirname. cbn [path with_path].
      now rewrite Hroot'.
    + now rewrite createDirectory_cases, Hnone, Hparent.
    + intros Habs.
      destruct (absent_child_of_parent _ _ _ Habs Hnone Hparent) as [Hb Hfresh].
      simpl in Hfresh.
      assert (Hentry :
        resolve (Path.segments (path uri)) (root (snd (createDirectory uri st))) =
        Some entry).
      { rewrite (segments_parent _ Habs Hb), resolve_app, Hroot'. simpl.
        fold basename. now rewrite map_get_set_eq. }
      split; [|split].
      * now apply map_set_fresh.
      * now rewrite lookup_spec, Hentry.
      * rewrite (createDirectory_cases uri (snd _)). now rewrite Hentry.
  - intros e. rewrite lookup_spec, lookupAsDirectory_spec, createDirectory_cases.
    simpl.
    destruct (resolve (Path.segments (path uri)) (root st)); [discriminate|].
    intros _.
    destruct (resolve (Path.segments (Path.dirname (path uri))) (root st))
      as [parent|]; [|now intros [= <-]].
    destruct (isDirectory parent); [discriminate|now intros [= <-]].
Qed.

Lemma createDirectory_idempotent_witness :
  _lookup Sample.site true Sample.fresh = (Ok None, Sample.fresh) /\
  _lookupAsDirectory (with_path Sample.site (Path.dirname (path Sample.site)))
    false Sample.fresh = (Ok (Directory "" 0 0 0 []), Sample.fresh) /\
  Path.is_absolute (path Sample.site) = true /\
  createDirectory Sample.site (snd (createDirectory Sample.site Sample.fresh)) =
    (Ok tt, snd (createDirectory Sample.site Sample.fresh)).
Proof.
  split; [reflexivity|]. split; [reflexivity|]. split; [reflexivity|].
  destruct (createDirectory_idempotent Sample.site Sample.fresh)
    as (_ & Hnew & _).
  destruct (Hnew "" 0 0 0 [] eq_refl eq_refl) as (_ & _ & _ & Habs).
  now apply Habs.
Defined.

(** C3 as stated fails for a relative path.  For the path [a] in a tree
    with a directory [.], the existence check walks [root/a] while the
    entry is set under [./a]: after the first call a lookup of the URI
    still finds nothing, so the second call sets a new directory again,
    counts the parent's size up again and buffers [Changed] and [Created]
    again. *)
Lemma createDirectory_relative_path_creates_again :
  Path.is_absolute (path Sample.relative) = false /\
  fst (createDirectory Sample.relative Sample.dotted) = Ok tt /\
  fst (_lookup Sample.relative true
         (snd (createDirectory Sample.relative Sample.dotted))) = Ok None /\
  fst (createDirectory Sample.relative
         (snd (createDirectory Sample.relative Sample.dotted))) = Ok tt /\
  fst (_lookup (Sample.vfs "/.") true
         (snd (createDirectory Sample.relative
                 (snd (createDirectory Sample.relative Sample.dotted))))) =
    Ok (Some (Directory "." 100 100 2 [("a", Directory "a" 100 100 0 [])])) /\
  _bufferedEvents
    (snd (createDirectory Sample.relative
            (snd (createDirectory Sample.relative Sample.dotted)))) =
  _bufferedEvents Sample.dotted ++
  [mkEvent Changed (Sample.vfs "."); mkEvent Created Sample.relative;
   mkEvent Changed (Sample.vfs "."); mkEvent Created Sample.relative].
Proof. repeat split. Qed.

(** ** [readFile] and [readDirectory] *)

Lemma count_load_once (t : list Call) (e : telemetryEventNames) :
  count_calls is_load (t ++ [sendInfoTelemetry e] ++ [loadFromDataverseCall]) =
  S (count_calls is_load t).
Proof. rewrite !count_calls_app. simpl. unfold count_calls. simpl. lia. Qed.

Lemma readFile_load (host : Host) (uri : Uri) (st : State) :
  resolve (Path.segments (path uri)) (root st) = None ->
  isContextSet (context st)
  && Path.includes (toString host uri)
       (toString host (rootDirectory (context st))) = true ->
  pathHasEntityFolderName host (context st) (toString host uri) = true ->
  readFile host uri st =
  (let triggered :=
     set_trace (trace st ++ [sendInfoTelemetry WEB_EXTENSION_FETCH_FILE_TRIGGERED])
       st in
   let st' :=
     set_trace (trace triggered ++ [loadFromDataverseCall])
       (snd (loadFromDataverse host triggered)) in
   (match fst (loadFromDataverse host triggered) with
    | Throw e => Throw e
    | Ok _ =>
        match fst (_lookupAsFile uri false st') with
        | Ok f => Ok (data f)
        | Throw e => Throw e
        end
    end, st')).
Proof.
  intros Hmiss Hroot Hfolder.
  unfold readFile, try_catch. unfold bind at 1. rewrite lookupAsFile_spec, Hmiss.
  unfold _loadFromDataverseToVFS. run_vfs. rewrite Hroot, Hfolder.
  destruct (loadFromDataverse host _) as [[[]|e] st1]; simpl; [|reflexivity].
  rewrite !lookupAsFile_spec. simpl. clear Hmiss.
  destruct (resolve _ _) as [f|]; [|reflexivity].
  destruct (isDirectory f); reflexivity.
Qed.

(** C4.  [readFile] returns the bytes of the [File] found at the path.
    When the lookup throws [FileNotFound], the context is set, the URI
    string includes that of the root directory and names an entity
    folder, it starts exactly one load; if the load throws, so does
    [readFile]; otherwise the result is that of one more lookup in the
    loaded tree, with no further load.  In every other miss it returns
    the empty byte sequence and changes nothing. *)
Theorem readFile_loads_once (host : Host) (uri : Uri) (st : State) :
  let underRoot :=
    isContextSet (context st)
    && Path.includes (toString host uri)
         (toString host (rootDirectory (context st))) in
  let entityFolder :=
    pathHasEntityFolderName host (context st) (toString host uri) in
  (forall f,
      _lookupAsFile uri false st = (Ok f, st) ->
      readFile host uri st = (Ok (data f), st)) /\
  (_lookupAsFile uri false st = (Throw FileNotFound, st) ->
   underRoot = true -> entityFolder = true ->
   let triggered :=
     set_trace (trace st ++ [sendInfoTelemetry WEB_EXTENSION_FETCH_FILE_TRIGGERED])
       st in
   let st' :=
     set_trace (trace triggered ++ [loadFromDataverseCall])
       (snd (loadFromDataverse host triggered)) in
   snd (readFile host uri st) = st' /\
   count_calls is_load (trace (snd (readFile host uri st))) =
     S (count_calls is_load (trace st)) /\
   fst (readFile host uri st) =
     match fst (loadFromDataverse host triggered) with
     | Throw e => Throw e
     | Ok _ =>
         match fst (_lookupAsFile uri false st') with
         | Ok f => Ok (data f)
         | Throw e => Throw e
         end
     end) /\
  (forall e,
      _lookupAsFile uri false st = (Throw e, st) ->
      isFileNotFound e && underRoot && entityFolder = false ->
      readFile host uri st = (Ok [], st)).
Proof.
  intros underRoot entityFolder. split; [|split].
  - intros f Hf. unfold readFile, try_catch, bind. now rewrite Hf.
  - intros Hmiss Hroot Hfolder triggered st'.
    assert (Hnone : resolve (Path.segments (path uri)) (root st) = None).
    { rewrite lookupAsFile_spec in Hmiss.
      destruct (resolve _ _) as [e|]; [|reflexivity].
      destruct (isDirectory e); discriminate. }
    rewrite (readFile_load host uri st Hnone Hroot Hfolder).
    fold triggered. fold st'. simpl. repeat split.
    subst st' triggered. simpl. rewrite <- app_assoc. apply count_load_once.
  - intros e Hmiss Hcond. unfold readFile, try_catch. unfold bind at 1.
    rewrite Hmiss. unfold bind, get_state. fold underRoot. fold entityFolder.
    destruct (isFileNotFound e); [|reflexivity].
    destruct underRoot; [|reflexivity].
    destruct entityFolder; [discriminate|reflexivity].
Qed.

Lemma readFile_loads_once_witness :
  _lookupAsFile Sample.home false Sample.fresh =
    (Throw FileNotFound, Sample.fresh) /\
  fst (readFile (Sample.sample_host true) Sample.home Sample.fresh) =
    Ok Sample.hello /\
  count_calls is_load
    (trace (snd (readFile (Sample.sample_host true) Sample.home Sample.fresh))) =
  1%nat.
Proof.
  split; [reflexivity|].
  destruct (readFile_loads_once (Sample.sample_host true) Sample.home
              Sample.fresh) as (_ & Hload & _).
  destruct (Hload eq_refl eq_refl eq_refl) as (_ & Hcount & Hresult).
  split; [rewrite Hresult; reflexivity|exact Hcount].
Defined.

(** C5 (amended).  [readDirectory] returns the (name, type) pairs of the
    children of the directory found at the path, in map order.  When
    the lookup throws [FileNotFound], the context is set and the URI
    string equals that of the root directory up to case, it starts
    exactly one load and returns the empty list without resolving the
    directory again (or throws what the load throws).  In every other
    miss it returns the empty list and changes nothing. *)
Theorem readDirectory_loads_once (host : Host) (uri : Uri) (st : State) :
  let isRoot :=
    isContextSet (context st)
    && String.eqb (toLowerCase host (toString host uri))
         (toLowerCase host (toString host (rootDirectory (context st)))) in
  (forall dir,
      _lookupAsDirectory uri false st = (Ok dir, st) ->
      readDirectory host uri st =
      (Ok (map (fun nc => (fst nc, type (snd nc))) (entries dir)), st)) /\
  (_lookupAsDirectory uri false st = (Throw FileNotFound, st) ->
   isRoot = true ->
   let triggered :=
     set_trace
       (trace st ++ [sendInfoTelemetry WEB_EXTENSION_FETCH_DIRECTORY_TRIGGERED])
       st in
   snd (readDirectory host uri st) =
     set_trace (trace triggered ++ [loadFromDataverseCall])
       (snd (loadFromDataverse host triggered)) /\
   count_calls is_load (trace (snd (readDirectory host uri st))) =
     S (count_calls is_load (trace st)) /\
   fst (readDirectory host uri st) =
     match fst (loadFromDataverse host triggered) with
     | Throw e => Throw e
     | Ok _ => Ok []
     end) /\
  (forall e,
      _lookupAsDirectory uri false st = (Throw e, st) ->
      isFileNotFound e && isRoot = false ->
      readDirectory host uri st = (Ok [], st)).
Proof.
  intros isRoot. split; [|split].
  - intros dir Hdir. unfold readDirectory, try_catch, bind. now rewrite Hdir.
  - intros Hmiss Hroot triggered.
    assert (Hrun : readDirectory host uri st =
                   (match fst (loadFromDataverse host triggered) with
                    | Throw e => Throw e
                    | Ok _ => Ok []
                    end,
                    set_trace (trace triggered ++ [loadFromDataverseCall])
                      (snd (loadFromDataverse host triggered)))).
    { unfold readDirectory, try_catch. unfold bind at 1. rewrite Hmiss.
      unfold _loadFromDataverseToVFS. run_vfs. fold isRoot. rewrite Hroot.
      subst triggered. unfold set_trace.
      destruct (loadFromDataverse host _) as [[[]|e] st1]; reflexivity. }
    rewrite Hrun. simpl. repeat split.
    rewrite <- app_assoc. apply count_load_once.
  - intros e Hmiss Hcond. unfold readDirectory, try_catch. unfold bind at 1.
    rewrite Hmiss. unfold bind, get_state. fold isRoot.
    destruct (isFileNotFound e); [|reflexivity].
    destruct isRoot; [discriminate|reflexivity].
Qed.

Lemma readDirectory_loads_once_witness :
  _lookupAsDirectory Sample.site false Sample.fresh =
    (Throw FileNotFound, Sample.fresh) /\
  fst (readDirectory (Sample.sample_host true) Sample.site Sample.fresh) =
    Ok [] /\
  count_calls is_load
    (trace (snd (readDirectory (Sample.sample_host true) Sample.site
                   Sample.fresh))) = 1%nat.
Proof.
  split; [reflexivity|].
  destruct (readDirectory_loads_once (Sample.sample_host true) Sample.site
              Sample.fresh) as (_ & Hload & _).
  destruct (Hload eq_refl eq_refl) as (_ & Hcount & Hresult).
  split; [rewrite Hresult; reflexivity|exact Hcount].
Defined.

(** C5 as stated fails: on a miss for the configured root the load runs
    and materializes the root directory with a child, yet the call
    returns the empty list; resolving the directory again in the state
    it leaves gives the child. *)
Lemma readDirectory_does_not_resolve_again :
  _lookupAsDirectory Sample.site false Sample.fresh =
    (Throw FileNotFound, Sample.fresh) /\
  String.eqb (toLowerCase (Sample.sample_host true)
                (toString (Sample.sample_host true) Sample.site))
    (toLowerCase (Sample.sample_host true)
       (toString (Sample.sample_host true)
          (rootDirectory (context Sample.fresh)))) = true /\
  fst (readDirectory (Sample.sample_host true) Sample.site Sample.fresh) =
    Ok [] /\
  fst (readDirectory (Sample.sample_host true) Sample.site
         (snd (readDirectory (Sample.sample_host true) Sample.site
                 Sample.fresh))) = Ok [("web-pages", DirectoryT)].
Proof. repeat split. Qed.

(** ** The fetch pass *)

Module RemoteFetchFacts.
Import RemoteFetch.

Lemma count_app {A} (p : A -> bool) a b :
  count p (a ++ b) = (count p a + count p b)%nat.
Proof. unfold count. now rewrite List.filter_app, length_app. Qed.

Lemma fetchEntities_log entities log :
  fetchEntities entities log =
  (Ok tt, log ++ flat_map (fun er => fetchEntity (fst er) (snd er)) entities).
Proof.
  revert log. induction entities as [|[entity response] rest IH]; intros log.
  - simpl. now rewrite app_nil_r.
  - simpl. rewrite IH. now rewrite <- app_assoc.
Qed.

Lemma no_dialog_in_records entity records :
  count isDialog (map (writeRecord entity) records) = 0%nat /\
  count isFailureTelemetry (map (writeRecord entity) records) = 0%nat /\
  count isNotification (map (writeRecord entity) records) = 0%nat.
Proof. induction records; simpl; [easy|]. exact IHrecords. Qed.

Lemma fetchEntity_counts entity response :
  count isDialog (fetchEntity entity response) =
    (if failed response then 1 else 0)%nat /\
  count isFailureTelemetry (fetchEntity entity response) =
    (if transportFailed response then 2 else if failed response then 1 else 0)%nat /\
  count isNotification (fetchEntity entity response) =
    (if transportFailed response then 1 else 0)%nat.
Proof.
  destruct response as [statusText| |records]; simpl; try easy.
  unfold count. simpl. apply (no_dialog_in_records entity records).
Qed.

End RemoteFetchFacts.

(** C6.  A fetch pass over the configured entity types resolves; its
    log is the concatenation, in order, of what each entity type does on
    its own, so a failing entity type does not keep the records of
    another from being written; an entity type whose response is not ok
    or has a null payload shows exactly one error dialog titled "There
    was a problem opening the workspace" and records at least one
    failure telemetry event (two for a transport failure, one for a null
    payload); a transport failure also shows the "Failed to fetch file
    content." notification once. *)
Theorem fetch_continues_after_failure
    (entities : list (string * RemoteFetch.Response)) :
  let result := RemoteFetch.fetchDataFromDataverseAndUpdateVFS entities in
  fst result = Ok tt /\
  snd result =
    flat_map (fun er => RemoteFetch.fetchEntity (fst er) (snd er)) entities /\
  (forall entity response,
      In (entity, response) entities ->
      RemoteFetch.failed response = true ->
      RemoteFetch.count RemoteFetch.isDialog
        (RemoteFetch.fetchEntity entity response) = 1%nat /\
      (1 <= RemoteFetch.count RemoteFetch.isFailureTelemetry
              (RemoteFetch.fetchEntity entity response))%nat /\
      RemoteFetch.count RemoteFetch.isNotification
        (RemoteFetch.fetchEntity entity response) =
        (if RemoteFetch.transportFailed response then 1 else 0)%nat) /\
  RemoteFetch.count RemoteFetch.isDialog (snd result) =
    RemoteFetch.count (fun er => RemoteFetch.failed (snd er)) entities /\
  RemoteFetch.count RemoteFetch.isNotification (snd result) =
    RemoteFetch.count (fun er => RemoteFetch.transportFailed (snd er)) entities /\
  (forall entity records record,
      In (entity, RemoteFetch.Records records) entities ->
      In record records ->
      In (RemoteFetch.writeRecord entity record) (snd result)).
Proof.
  intros result. subst result.
  unfold RemoteFetch.fetchDataFromDataverseAndUpdateVFS.
  rewrite RemoteFetchFacts.fetchEntities_log. cbn [fst snd app].
  split; [reflexivity|]. split; [reflexivity|]. split; [|split; [|split]].
  - intros entity response _ Hfailed.
    destruct (RemoteFetchFacts.fetchEntity_counts entity response) as (H1 & H2 & H3).
    rewrite H1, H2, H3, Hfailed.
    destruct (RemoteFetch.transportFailed response); repeat split; lia.
  - induction entities as [|[entity response] rest IH]; [reflexivity|].
    cbn [flat_map fst snd]. rewrite RemoteFetchFacts.count_app, IH.
    destruct (RemoteFetchFacts.fetchEntity_counts entity response) as (H1 & _).
    rewrite H1. unfold RemoteFetch.count. simpl.
    destruct (RemoteFetch.failed response); reflexivity.
  - induction entities as [|[entity response] rest IH]; [reflexivity|].
    cbn [flat_map fst snd]. rewrite RemoteFetchFacts.count_app, IH.
    destruct (RemoteFetchFacts.fetchEntity_counts entity response) as (_ & _ & H3).
    rewrite H3. unfold RemoteFetch.count. simpl.
    destruct (RemoteFetch.transportFailed response); reflexivity.
  - intros entity records record Hin Hrec. apply in_flat_map.
    exists (entity, RemoteFetch.Records records). split; [exact Hin|].
    simpl. right. right. now apply in_map.
Qed.

Lemma fetch_continues_after_failure_witness :
  In ("webpages", RemoteFetch.NotOk "statusText")
    [("webpages", RemoteFetch.NotOk "statusText");
     ("contentsnippets", RemoteFetch.Records ["greeting"])] /\
  RemoteFetch.count RemoteFetch.isDialog
    (RemoteFetch.fetchEntity "webpages" (RemoteFetch.NotOk "statusText")) =
    1%nat /\
  In (RemoteFetch.writeRecord "contentsnippets" "greeting")
    (snd (RemoteFetch.fetchDataFromDataverseAndUpdateVFS
            [("webpages", RemoteFetch.NotOk "statusText");
             ("contentsnippets", RemoteFetch.Records ["greeting"])])).
Proof.
  destruct (fetch_continues_after_failure
              [("webpages", RemoteFetch.NotOk "statusText");
               ("contentsnippets", RemoteFetch.Records ["greeting"])])
    as (_ & _ & Hfail & _ & _ & Hrec).
  split; [now left|]. split.
  - apply (Hfail "webpages" (RemoteFetch.NotOk "statusText")); [now left|reflexivity].
  - apply (Hrec "contentsnippets" ["greeting"] "greeting"); [right; now left|now left].
Defined.

(** * Further properties of the file system provider *)

(** ** Helper facts *)

Lemma lookupAsFile_asFile uri st :
  _lookupAsFile uri false st =
  (asFile uri (resolve (Path.segments (path uri)) (root st)), st).
Proof. apply lookupAsFile_spec. Qed.

Lemma lookupParent_state uri st :
  snd (_lookupParentDirectory uri st) = st.
Proof.
  unfold _lookupParentDirectory. rewrite lookupAsDirectory_spec. reflexivity.
Qed.

Lemma lookupParent_error uri st e :
  fst (_lookupParentDirectory uri st) = Throw e ->
  e = FileNotFound \/
  e = FileNotADirectory (with_path uri (Path.dirname (path uri))).
Proof.
  unfold _lookupParentDirectory. rewrite lookupAsDirectory_spec. simpl.
  destruct (resolve _ _) as [d|]; [|intros [= <-]; now left].
  destruct (isDirectory d); [discriminate|intros [= <-]; now right].
Qed.

Lemma writeFile_parent_fails host uri content create overwrite st e :
  fst (_lookupParentDirectory uri st) = Throw e ->
  writeFile host uri content create overwrite st = (Throw e, st).
Proof.
  intros H. unfold writeFile. unfold bind at 1.
  pose proof (lookupParent_state uri st) as Hst.
  destruct (_lookupParentDirectory uri st) as [[parent|e'] st']; simpl in *.
  - discriminate.
  - now injection H as ->; subst.
Qed.

(** Either the parent lookup fails, or it finds a directory. *)
Lemma lookupParent_cases uri st :
  (exists e, _lookupParentDirectory uri st = (Throw e, st)) \/
  (exists parent, _lookupParentDirectory uri st = (Ok parent, st)).
Proof.
  pose proof (lookupParent_state uri st) as Hst.
  destruct (_lookupParentDirectory uri st) as [[parent|e] st']; simpl in Hst; subst.
  - right. eauto.
  - left. eauto.
Qed.

(** A successful [writeFile] had a parent directory, wrote a [File] given
    by [written], and its child at the basename was not a directory. *)
Lemma writeFile_success host uri content create overwrite st :
  fst (writeFile host uri content create overwrite st) = Ok tt ->
  exists parent n c m s d,
    _lookupParentDirectory uri st = (Ok parent, st) /\
    root (snd (writeFile host uri content create overwrite st)) =
      written uri content (clock st) (File n c m s d) (root st) /\
    clock (snd (writeFile host uri content create overwrite st)) = clock st /\
    (map_get (entries parent) (Path.basename (path uri)) = None /\
     n = Path.basename (path uri) /\ c = clock st
     \/ map_get (entries parent) (Path.basename (path uri)) =
        Some (File n c m s d)).
Proof.
  destruct (lookupParent_cases uri st) as [[e He]|[parent Hparent]].
  - rewrite (writeFile_parent_fails host uri content create overwrite st e)
      by now rewrite He.
    discriminate.
  - rewrite (writeFile_cases _ _ _ _ _ _ _ Hparent).
    destruct (map_get (entries parent) (Path.basename (path uri)))
      as [[n c m s d|n c m s es]|] eqn:He.
    + destruct (create && negb overwrite); [discriminate|].
      destruct (hasDirty host st uri).
      * destruct (patch host _ _); [discriminate|]. simpl. intros _.
        exists parent, n, c, m, s, d. repeat split; auto.
      * simpl. intros _. exists parent, n, c, m, s, d. repeat split; auto.
    + discriminate.
    + destruct create; [|discriminate]. simpl. intros _.
      exists parent, (Path.basename (path uri)), (clock st), (clock st), 0, [].
      repeat split; auto.
Qed.

(** The parent directory after the content has been applied. *)
Lemma written_parent_lookup uri content st st' parent n c m s d :
  _lookupParentDirectory uri st = (Ok parent, st) ->
  root st' = written uri content (clock st) (File n c m s d) (root st) ->
  _lookupParentDirectory uri st' =
  (Ok (set_child (Path.basename (path uri))
         (File n c (clock st) (Z.of_nat (length content)) content) parent),
   st').
Proof.
  intros [Hres Hdir]%lookupParent_spec Hroot. apply lookupParent_spec.
  rewrite Hroot. split.
  - now apply written_parent.
  - destruct parent; [discriminate|reflexivity].
Qed.

(** Mutating the child [b] of the directory reached along [parts] does
    not change what any other walk makes of a file, as long as nothing
    could be resolved below the old and the new child. *)
Lemma resolve_update_other (parts : list string) (b : string)
    (g : Entry -> Entry) (E : Entry) (uri : Uri) :
  (forall n c m s es,
      exists c' m' s', g (Directory n c m s es) =
                       Directory n c' m' s' (map_set es b E)) ->
  (forall n c m s d, g (File n c m s d) = File n c m s d) ->
  (forall rest, rest <> [] -> resolve rest E = None) ->
  forall (r parent : Entry) (q : list string),
    resolve (walked parts) r = Some parent ->
    (forall d rest, child_of parent b = Some d -> rest <> [] ->
                    resolve rest d = None) ->
    q <> walked parts ++ [b] ->
    asFile uri (resolve q (update_at parts g r)) = asFile uri (resolve q r).
Proof.
  intros Hdir Hfile HE. induction parts as [|part rest' IH]; intros r parent q.
  - simpl. intros [= <-] Hold Hq.
    destruct r as [n c m s d|n c m s es]; [now rewrite Hfile|].
    destruct (Hdir n c m s es) as (c' & m' & s' & ->).
    destruct q as [|seg rest]; [reflexivity|]. simpl.
    destruct (string_dec b seg) as [<-|Hne].
    + assert (Hrest : rest <> []) by (intros ->; now apply Hq).
      rewrite map_get_set_eq, (HE _ Hrest).
      destruct (map_get es b) as [d|] eqn:Hd; [|reflexivity].
      now rewrite (Hold d rest Hd Hrest).
    + now rewrite (map_get_set_ne _ _ _ _ Hne).
  - simpl. destruct (Path.falsy part) eqn:Hfalsy; simpl; [apply IH|].
    destruct r as [n c m s d|n c m s es]; simpl; [discriminate|].
    destruct (map_get es part) as [child|] eqn:Hchild; [|discriminate].
    intros Hres Hold Hq. destruct q as [|seg rest]; [reflexivity|]. simpl.
    destruct (string_dec part seg) as [<-|Hne].
    + rewrite map_get_adjust_eq, Hchild. simpl.
      apply (IH child parent rest Hres Hold). intros ->. now apply Hq.
    + now rewrite (map_get_adjust_ne _ _ _ _ Hne).
Qed.

Lemma resolve_below_file (f : Entry) (rest : list string) :
  isDirectory f = false -> rest <> [] -> resolve rest f = None.
Proof. intros Hf Hrest. now apply resolve_file_stuck. Qed.

(** The file written at an absolute path with a last name is what a walk
    along the path finds. *)
Lemma written_found uri content st st' parent n c m s d :
  Path.is_absolute (path uri) = true ->
  Path.basename (path uri) <> "" ->
  _lookupParentDirectory uri st = (Ok parent, st) ->
  root st' = written uri content (clock st) (File n c m s d) (root st) ->
  resolve (Path.segments (path uri)) (root st') =
  Some (File n c (clock st) (Z.of_nat (length content)) content).
Proof.
  intros Habs Hb Hparent Hroot.
  pose proof (written_parent_lookup _ _ _ _ _ _ _ _ _ _ Hparent Hroot) as H.
  apply lookupParent_spec in H as [Hres _].
  rewrite (segments_parent _ Habs Hb), resolve_app, Hres.
  apply lookupParent_spec in Hparent as [_ Hdir].
  destruct parent; [discriminate|]. simpl. now rewrite map_get_set_eq.
Qed.

(** ** Reading back what was written *)

(** X1.  Round trip: after a successful [writeFile] on an absolute path
    with a last name, [readFile] on the same URI returns exactly the
    content written, starts no load and changes nothing. *)
Theorem readFile_after_writeFile (host : Host) (uri : Uri)
    (content : list Byte.byte) (create overwrite : bool) (st : State) :
  Path.is_absolute (path uri) = true ->
  Path.basename (path uri) <> "" ->
  fst (writeFile host uri content create overwrite st) = Ok tt ->
  readFile host uri (snd (writeFile host uri content create overwrite st)) =
  (Ok content, snd (writeFile host uri content create overwrite st)).
Proof.
  intros Habs Hb Hok.
  destruct (writeFile_success _ _ _ _ _ _ Hok)
    as (parent & n & c & m & s & d & Hparent & Hroot & _ & _).
  unfold readFile, try_catch. unfold bind at 1.
  rewrite lookupAsFile_asFile,
    (written_found _ _ _ _ _ _ _ _ _ _ Habs Hb Hparent Hroot).
  reflexivity.
Qed.

Lemma readFile_after_writeFile_witness :
  Path.is_absolute (path Sample.other) = true /\
  fst (writeFile (Sample.sample_host true) Sample.other Sample.bye true false
         Sample.loaded) = Ok tt /\
  fst (readFile (Sample.sample_host true) Sample.other
         (snd (writeFile (Sample.sample_host true) Sample.other Sample.bye
                 true false Sample.loaded))) = Ok Sample.bye.
Proof.
  split; [reflexivity|]. split; [reflexivity|].
  rewrite (readFile_after_writeFile (Sample.sample_host true) Sample.other
             Sample.bye true false Sample.loaded eq_refl);
    [reflexivity|discriminate|reflexivity].
Defined.

(** X2.  [writeFile] is local: whatever its outcome, for every URI whose
    walked segments are not those of the written path (the segments of
    the parent followed by the basename), a file lookup gives the same
    result, entry or error, as before the call. *)
Theorem writeFile_leaves_other_files (host : Host) (uri : Uri)
    (content : list Byte.byte) (create overwrite : bool) (st : State)
    (q : Uri) :
  Path.segments (path q) <>
    Path.segments (Path.dirname (path uri)) ++ [Path.basename (path uri)] ->
  fst (_lookupAsFile q false
         (snd (writeFile host uri content create overwrite st))) =
  fst (_lookupAsFile q false st).
Proof.
  intros Hq. rewrite !lookupAsFile_asFile. cbn [fst].
  destruct (lookupParent_cases uri st) as [[e He]|[parent Hparent]].
  - rewrite (writeFile_parent_fails host uri content create overwrite st e)
      by now rewrite He.
    reflexivity.
  - assert (Hwritten : forall n c m s d,
               (forall x rest,
                   child_of parent (Path.basename (path uri)) = Some x ->
                   rest <> [] -> resolve rest x = None) ->
               asFile q
                 (resolve (Path.segments (path q))
                    (written uri content (clock st) (File n c m s d) (root st))) =
               asFile q (resolve (Path.segments (path q)) (root st))).
    { intros n c m s d Hold. unfold written.
      apply lookupParent_spec in Hparent as [Hres _].
      apply (resolve_update_other (Path.split (Path.dirname (path uri)))
               (Path.basename (path uri))
               (set_child (Path.basename (path uri))
                  (write_content (clock st) content (File n c m s d)))
               (write_content (clock st) content (File n c m s d)) q)
        with (parent := parent); [| | |exact Hres|exact Hold|exact Hq].
      - intros n' c' m' s' es. exists c', m', s'. reflexivity.
      - reflexivity.
      - intros rest Hrest. now apply resolve_below_file. }
    assert (Hchild : forall e,
               map_get (entries parent) (Path.basename (path uri)) = e ->
               child_of parent (Path.basename (path uri)) = e).
    { apply lookupParent_spec in Hparent as [_ Hdir].
      destruct parent; [discriminate|]. now intros e <-. }
    rewrite (writeFile_cases _ _ _ _ _ _ _ Hparent).
    destruct (map_get (entries parent) (Path.basename (path uri)))
      as [[n c m s d|n c m s es]|] eqn:He.
    + assert (Hold : forall x rest,
                 child_of parent (Path.basename (path uri)) = Some x ->
                 rest <> [] -> resolve rest x = None).
      { intros x rest Hx Hrest. rewrite (Hchild _ eq_refl) in Hx.
        injection Hx as <-. now apply resolve_below_file. }
      destruct (create && negb overwrite); [reflexivity|].
      destruct (hasDirty host st uri).
      * destruct (patch host _ _); [reflexivity|]. now apply Hwritten.
      * now apply Hwritten.
    + reflexivity.
    + destruct create; [|reflexivity]. apply Hwritten.
      intros x rest Hx. rewrite (Hchild _ eq_refl) in Hx. discriminate.
Qed.

Lemma writeFile_leaves_other_files_witness :
  Path.segments (path Sample.home) <>
    Path.segments (Path.dirname (path Sample.other)) ++
    [Path.basename (path Sample.other)] /\
  fst (_lookupAsFile Sample.home false
         (snd (writeFile (Sample.sample_host true) Sample.other Sample.bye
                 true true Sample.loaded))) =
  Ok (File "home.html" 100 100 2 Sample.hello).
Proof.
  split; [discriminate|].
  rewrite (writeFile_leaves_other_files (Sample.sample_host true) Sample.other
             Sample.bye true true Sample.loaded Sample.home);
    [reflexivity|discriminate].
Defined.

(** ** The parent directory after [writeFile] *)

Lemma listing_set_fresh (es : list (string * Entry)) (b : string) (f : Entry) :
  map_get es b = None ->
  map (fun nc => (fst nc, type (snd nc))) (map_set es b f) =
  map (fun nc => (fst nc, type (snd nc))) es ++ [(b, type f)].
Proof. intros H. now rewrite (map_set_fresh _ _ _ H), map_app. Qed.

Lemma listing_set_same (es : list (string * Entry)) (b : string)
    (old f : Entry) :
  map_get es b = Some old -> type old = type f ->
  map (fun nc => (fst nc, type (snd nc))) (map_set es b f) =
  map (fun nc => (fst nc, type (snd nc))) es.
Proof.
  intros Hget Htype. induction es as [|[k v] es IH]; simpl in *; [discriminate|].
  destruct (String.eqb b k) eqn:E; simpl.
  - apply String.eqb_eq in E. injection Hget as ->. now subst; rewrite Htype.
  - now rewrite IH.
Qed.

(** X3.  After a successful [writeFile], [readDirectory] of the parent
    lists the same names and types in the same order as before when the
    file existed, and that list followed by the new file's name (type
    File) when it was created. *)
Theorem readDirectory_after_writeFile (host : Host) (uri : Uri)
    (content : list Byte.byte) (create overwrite : bool) (st : State)
    (parent : Entry) :
  _lookupParentDirectory uri st = (Ok parent, st) ->
  fst (writeFile host uri content create overwrite st) = Ok tt ->
  readDirectory host (with_path uri (Path.dirname (path uri)))
    (snd (writeFile host uri content create overwrite st)) =
  (Ok (listing parent ++
       if defined (map_get (entries parent) (Path.basename (path uri)))
       then []
       else [(Path.basename (path uri), FileT)]),
   snd (writeFile host uri content create overwrite st)).
Proof.
  intros Hparent Hok.
  destruct (writeFile_success _ _ _ _ _ _ Hok)
    as (parent0 & n & c & m & s & d & Hparent0 & Hroot & _ & Hentry).
  rewrite Hparent in Hparent0. injection Hparent0 as <-.
  pose proof (written_parent_lookup _ _ _ _ _ _ _ _ _ _ Hparent Hroot) as Hnew.
  unfold _lookupParentDirectory in Hnew.
  unfold readDirectory, try_catch. unfold bind at 1. rewrite Hnew.
  apply lookupParent_spec in Hparent as [_ Hdir].
  destruct parent as [|pn pc pm ps es]; [discriminate|].
  unfold ret, listing. simpl entries. f_equal. f_equal.
  destruct Hentry as [(Hnone & _ & _)|Hsome].
  - simpl in Hnone. rewrite Hnone. simpl defined. cbv iota.
    now apply listing_set_fresh.
  - simpl in Hsome. rewrite Hsome. simpl defined. cbv iota.
    rewrite app_nil_r. now apply (listing_set_same _ _ _ _ Hsome).
Qed.

Lemma readDirectory_after_writeFile_witness :
  _lookupParentDirectory Sample.other Sample.loaded =
    (Ok Sample.webPagesDir, Sample.loaded) /\
  fst (readDirectory (Sample.sample_host true) Sample.webPages
         (snd (writeFile (Sample.sample_host true) Sample.other Sample.bye
                 true true Sample.loaded))) =
  Ok [("home.html", FileT); ("other.html", FileT)].
Proof.
  split; [reflexivity|].
  change Sample.webPages
    with (with_path Sample.other (Path.dirname (path Sample.other))).
  rewrite (readDirectory_after_writeFile (Sample.sample_host true)
             Sample.other Sample.bye true true Sample.loaded
             Sample.webPagesDir eq_refl eq_refl).
  reflexivity.
Defined.

(** X4.  What [writeFile] leaves alone: a successful call changes
    neither the name, creation time, modification time nor size of the
    parent directory (also when it adds a file to it, unlike
    [createDirectory]), and an overwritten file keeps its name and its
    creation time. *)
Theorem writeFile_keeps_metadata (host : Host) (uri : Uri)
    (content : list Byte.byte) (create overwrite : bool) (st : State)
    (parent : Entry) :
  _lookupParentDirectory uri st = (Ok parent, st) ->
  fst (writeFile host uri content create overwrite st) = Ok tt ->
  exists parent',
    _lookupParentDirectory uri
      (snd (writeFile host uri content create overwrite st)) =
      (Ok parent', snd (writeFile host uri content create overwrite st)) /\
    name parent' = name parent /\
    ctime parent' = ctime parent /\
    mtime parent' = mtime parent /\
    size parent' = size parent /\
    (forall old,
        map_get (entries parent) (Path.basename (path uri)) = Some old ->
        exists new,
          map_get (entries parent') (Path.basename (path uri)) = Some new /\
          name new = name old /\ ctime new = ctime old).
Proof.
  intros Hparent Hok.
  destruct (writeFile_success _ _ _ _ _ _ Hok)
    as (parent0 & n & c & m & s & d & Hparent0 & Hroot & _ & Hentry).
  rewrite Hparent in Hparent0. injection Hparent0 as <-.
  pose proof (written_parent_lookup _ _ _ _ _ _ _ _ _ _ Hparent Hroot) as Hnew.
  eexists. split; [exact Hnew|].
  apply lookupParent_spec in Hparent as [_ Hdir].
  destruct parent as [|pn pc pm ps es]; [discriminate|]. simpl.
  repeat split.
  intros old Hold. rewrite map_get_set_eq. eexists. split; [reflexivity|].
  destruct Hentry as [(Hnone & _ & _)|Hsome]; simpl in *.
  - congruence.
  - rewrite Hsome in Hold. injection Hold as <-. split; reflexivity.
Qed.

Lemma writeFile_keeps_metadata_witness :
  _lookupParentDirectory Sample.other Sample.loaded =
    (Ok Sample.webPagesDir, Sample.loaded) /\
  exists parent',
    _lookupParentDirectory Sample.other
      (snd (writeFile (Sample.sample_host true) Sample.other Sample.bye true
              true Sample.loaded)) =
      (Ok parent',
       snd (writeFile (Sample.sample_host true) Sample.other Sample.bye true
              true Sample.loaded)) /\
    size parent' = 0.
Proof.
  split; [reflexivity|].
  destruct (writeFile_keeps_metadata (Sample.sample_host true) Sample.other
              Sample.bye true true Sample.loaded Sample.webPagesDir eq_refl
              eq_refl) as (parent' & Hlookup & _ & _ & _ & Hsize & _).
  exists parent'. split; [exact Hlookup|exact Hsize].
Defined.

(** X5.  Writing into a missing directory fails and creates nothing:
    when a segment of the parent path does not resolve, [writeFile]
    throws [FileNotFound]; when the parent path resolves to a file, it
    throws [FileNotADirectory] for the parent URI; in both cases,
    whatever the options, the state is unchanged (no intermediate
    directory is made). *)
Theorem writeFile_needs_parent_directory (host : Host) (uri : Uri)
    (content : list Byte.byte) (create overwrite : bool) (st : State) :
  (resolve (Path.segments (Path.dirname (path uri))) (root st) = None ->
   writeFile host uri content create overwrite st = (Throw FileNotFound, st)) /\
  (forall f,
      resolve (Path.segments (Path.dirname (path uri))) (root st) = Some f ->
      isFile f = true ->
      writeFile host uri content create overwrite st =
      (Throw (FileNotADirectory (with_path uri (Path.dirname (path uri)))), st)).
Proof.
  split.
  - intros Hnone. apply writeFile_parent_fails.
    unfold _lookupParentDirectory. rewrite lookupAsDirectory_spec. simpl.
    now rewrite Hnone.
  - intros f Hf Hfile. apply writeFile_parent_fails.
    unfold _lookupParentDirectory. rewrite lookupAsDirectory_spec. simpl.
    rewrite Hf. unfold isFile in Hfile. apply negb_true_iff in Hfile.
    now rewrite Hfile.
Qed.

Lemma writeFile_needs_parent_directory_witness :
  resolve (Path.segments (Path.dirname (path Sample.home))) (root Sample.fresh) =
    None /\
  writeFile (Sample.sample_host true) Sample.home Sample.hello true true
    Sample.fresh = (Throw FileNotFound, Sample.fresh) /\
  writeFile (Sample.sample_host true) Sample.belowHome Sample.hello true true
    Sample.loaded =
  (Throw (FileNotADirectory
            (with_path Sample.belowHome (Path.dirname (path Sample.belowHome)))),
   Sample.loaded).
Proof.
  split; [reflexivity|].
  destruct (writeFile_needs_parent_directory (Sample.sample_host true)
              Sample.home Sample.hello true true Sample.fresh) as (Hmiss & _).
  destruct (writeFile_needs_parent_directory (Sample.sample_host true)
              Sample.belowHome Sample.hello true true Sample.loaded)
    as (_ & Hfile).
  split; [now apply Hmiss|].
  now apply (Hfile (File "home.html" 100 100 2 Sample.hello)).
Defined.

(** ** [createDirectory] and the files of the tree *)

(** X6.  [createDirectory] on an absolute path never creates, hides or
    changes a file: for every URI, a file lookup succeeds with an entry
    after the call exactly when it did before, with the same entry. *)
Theorem createDirectory_keeps_files (uri : Uri) (st : State) (q : Uri)
    (f : Entry) :
  Path.is_absolute (path uri) = true ->
  fst (_lookupAsFile q false (snd (createDirectory uri st))) = Ok f <->
  fst (_lookupAsFile q false st) = Ok f.
Proof.
  intros Habs. rewrite !lookupAsFile_asFile. cbn [fst].
  rewrite createDirectory_cases.
  destruct (resolve (Path.segments (path uri)) (root st)) eqn:Hnone;
    [reflexivity|].
  destruct (resolve (Path.segments (Path.dirname (path uri))) (root st))
    as [parent|] eqn:Hparent; [|reflexivity].
  destruct (isDirectory parent) eqn:Hdir; [|reflexivity].
  cbn [snd root].
  destruct (absent_child_of_parent _ _ _ Habs Hnone Hparent) as [Hb Hfresh].
  destruct (decide (Path.segments (path q) =
                    Path.segments (Path.dirname (path uri)) ++
                    [Path.basename (path uri)])) as [Heq|Hne].
  - rewrite Heq, !resolve_app, Hparent.
    rewrite (update_at_resolved _ _ _ _ Hparent).
    destruct parent as [|pn pc pm ps es]; [discriminate|]. simpl in *.
    rewrite map_get_set_eq, Hfresh. simpl. split; discriminate.
  - rewrite (resolve_update_other (Path.split (Path.dirname (path uri)))
               (Path.basename (path uri))
               (add_directory (clock st)
                  (Directory (Path.basename (path uri)) (clock st) (clock st) 0 []))
               (Directory (Path.basename (path uri)) (clock st) (clock st) 0 [])
               q) with (parent := parent); [reflexivity| | | |exact Hparent| |exact Hne].
    + intros n c m s es. now exists c, (clock st), (s + 1).
    + reflexivity.
    + intros [|seg rest] Hrest; [contradiction|reflexivity].
    + intros d rest Hd. rewrite Hfresh in Hd. discriminate.
Qed.

Lemma createDirectory_keeps_files_witness :
  Path.is_absolute (path Sample.other) = true /\
  fst (_lookupAsFile Sample.home false
         (snd (createDirectory Sample.other Sample.loaded))) =
  Ok (File "home.html" 100 100 2 Sample.hello).
Proof.
  split; [reflexivity|].
  apply (createDirectory_keeps_files Sample.other Sample.loaded Sample.home);
    reflexivity.
Defined.

(** ** Empty segments *)

Lemma chars_of_append (a b : string) :
  list_ascii_of_string (String.append a b) =
  list_ascii_of_string a ++ list_ascii_of_string b.
Proof. induction a as [|c a IH]; simpl; [reflexivity|now rewrite IH]. Qed.

Lemma segments_append_slash (a b : string) :
  Path.segments (String.append a (String "/" b)) =
  Path.segments a ++ Path.segments b.
Proof.
  rewrite !segments_of_chars, chars_of_append. simpl.
  now rewrite PathFacts.segments_chars_app_slash, map_app.
Qed.

Lemma lookup_same_segments (u v : Uri) (silent : bool) (st : State) :
  Path.segments (path u) = Path.segments (path v) ->
  _lookup u silent st = _lookup v silent st.
Proof. intros H. now rewrite !lookup_spec, H. Qed.

(** X7.  Path lookup ignores empty segments: a trailing slash, a leading
    slash or a doubled slash anywhere in the path does not change what
    the URI resolves to, in either mode. *)
Theorem lookup_ignores_extra_slashes (uri : Uri) (silent : bool) (st : State) :
  _lookup (with_path uri (String.append (path uri) "/")) silent st =
    _lookup uri silent st /\
  _lookup (with_path uri (String "/" (path uri))) silent st =
    _lookup uri silent st /\
  (forall a b,
      path uri = String.append a (String "/" b) ->
      _lookup (with_path uri (String.append a (String "/" (String "/" b))))
        silent st = _lookup uri silent st).
Proof.
  split; [|split].
  - apply lookup_same_segments. simpl.
    rewrite (segments_append_slash (path uri) ""). apply app_nil_r.
  - apply lookup_same_segments. simpl.
    apply (segments_append_slash "" (path uri)).
  - intros a b Hpath. apply lookup_same_segments. simpl.
    rewrite Hpath, (segments_append_slash a (String "/" b)),
      (segments_append_slash a b).
    reflexivity.
Qed.

Lemma lookup_ignores_extra_slashes_witness :
  path Sample.home =
    String.append "/site/web-pages" (String "/" "home.html") /\
  _lookup (Sample.vfs "/site/web-pages//home.html") false Sample.loaded =
    (Ok (Some (File "home.html" 100 100 2 Sample.hello)), Sample.loaded).
Proof.
  split; [reflexivity|].
  destruct (lookup_ignores_extra_slashes Sample.home false Sample.loaded)
    as (_ & _ & Hdouble).
  transitivity (_lookup Sample.home false Sample.loaded);
    [exact (Hdouble "/site/web-pages" "home.html" eq_refl)|reflexivity].
Defined.

(** ** Addressing by parent and basename agrees with path lookup *)

(** X8.  For an absolute path with a last name, the entry that
    [writeFile] and [createDirectory] address as child [basename] of the
    parent directory is the entry that a lookup of the whole path finds;
    and when the parent lookup fails, a lookup of the whole path finds
    nothing. *)
Theorem parent_child_is_lookup (uri : Uri) (st : State) :
  Path.is_absolute (path uri) = true ->
  Path.basename (path uri) <> "" ->
  (forall parent,
      _lookupParentDirectory uri st = (Ok parent, st) ->
      _lookup uri true st =
      (Ok (map_get (entries parent) (Path.basename (path uri))), st)) /\
  (forall e,
      _lookupParentDirectory uri st = (Throw e, st) ->
      _lookup uri true st = (Ok None, st)).
Proof.
  intros Habs Hb. split.
  - intros parent Hparent. now apply lookup_is_child_of_parent.
  - intros e. unfold _lookupParentDirectory.
    rewrite lookupAsDirectory_spec, lookup_spec. simpl.
    rewrite (segments_parent _ Habs Hb), resolve_app.
    destruct (resolve (Path.segments (Path.dirname (path uri))) (root st))
      as [d|]; [|reflexivity].
    destruct d; [reflexivity|discriminate].
Qed.

Lemma parent_child_is_lookup_witness :
  Path.is_absolute (path Sample.home) = true /\
  _lookupParentDirectory Sample.home Sample.loaded =
    (Ok Sample.webPagesDir, Sample.loaded) /\
  _lookup Sample.home true Sample.loaded =
    (Ok (Some (File "home.html" 100 100 2 Sample.hello)), Sample.loaded).
Proof.
  split; [reflexivity|]. split; [reflexivity|].
  destruct (parent_child_is_lookup Sample.home Sample.loaded eq_refl)
    as (Hchild & _); [discriminate|].
  now rewrite (Hchild Sample.webPagesDir eq_refl).
Defined.

(** ** Children are stored under their own names *)

Lemma well_named_dir n c m s es :
  well_named (Directory n c m s es) <->
  NoDup (map fst es) /\
  Forall (fun kc => name (snd kc) = fst kc /\ well_named (snd kc)) es.
Proof.
  simpl. split; intros [Hkeys Hall]; (split; [exact Hkeys|]); clear Hkeys.
  - induction es as [|[k v] es IH]; [constructor|].
    destruct Hall as (Hn & Hv & Hrest). constructor; [now split|now apply IH].
  - induction es as [|[k v] es IH]; [exact I|].
    inversion Hall as [|? ? [Hn Hv] Hrest]; subst. simpl in *.
    repeat split; [exact Hn|exact Hv|now apply IH].
Qed.

Lemma map_get_None_keys {A} (es : list (string * A)) (k : string) :
  map_get es k = None <-> ~ In k (map fst es).
Proof.
  induction es as [|[k' v] es IH]; simpl; [tauto|].
  destruct (String.eqb k k') eqn:E.
  - apply String.eqb_eq in E. subst. split; [discriminate|tauto].
  - apply String.eqb_neq in E. rewrite IH. split.
    + intros H [Hk|Hin]; [congruence|tauto].
    + tauto.
Qed.

Lemma map_get_In {A} (es : list (string * A)) (k : string) (v : A) :
  map_get es k = Some v -> In (k, v) es.
Proof.
  induction es as [|[k' v'] es IH]; simpl; [discriminate|].
  destruct (String.eqb k k') eqn:E.
  - apply String.eqb_eq in E. intros [= ->]. subst. now left.
  - intros H. right. now apply IH.
Qed.

Lemma keys_map_set {A} (es : list (string * A)) (k : string) (v : A) :
  map fst (map_set es k v) =
  match map_get es k with
  | Some _ => map fst es
  | None => map fst es ++ [k]
  end.
Proof.
  induction es as [|[k' v'] es IH]; simpl; [reflexivity|].
  destruct (String.eqb k k') eqn:E; simpl.
  - apply String.eqb_eq in E. now subst.
  - rewrite IH. now destruct (map_get es k).
Qed.

Lemma keys_map_adjust {A} (es : list (string * A)) (k : string) (g : A -> A) :
  map fst (map_adjust k g es) = map fst es.
Proof.
  induction es as [|[k' v'] es IH]; simpl; [reflexivity|].
  destruct (String.eqb k k'); simpl; [reflexivity|now rewrite IH].
Qed.

Lemma NoDup_map_set {A} (es : list (string * A)) (k : string) (v : A) :
  NoDup (map fst es) -> NoDup (map fst (map_set es k v)).
Proof.
  intros H. rewrite keys_map_set.
  destruct (map_get es k) eqn:E; [exact H|].
  apply map_get_None_keys in E. apply NoDup_app. repeat split.
  - exact H.
  - intros x Hx Hin. apply list_elem_of_In in Hx, Hin.
    destruct Hin as [<-|[]]. contradiction.
  - apply NoDup_singleton.
Qed.

Lemma Forall_map_set {A} (P : string * A -> Prop)
    (es : list (string * A)) (k : string) (v : A) :
  Forall P es -> P (k, v) -> Forall P (map_set es k v).
Proof.
  intros Hall Hv. induction es as [|[k' v'] es IH]; simpl.
  - now constructor.
  - inversion Hall; subst.
    destruct (String.eqb k k'); constructor; auto.
Qed.

Lemma Forall_map_adjust {A} (P : string * A -> Prop)
    (es : list (string * A)) (k : string) (g : A -> A) :
  Forall P es -> (forall k' v, P (k', v) -> P (k', g v)) ->
  Forall P (map_adjust k g es).
Proof.
  intros Hall Hg. induction es as [|[k' v'] es IH]; simpl; [constructor|].
  inversion Hall; subst.
  destruct (String.eqb k k'); constructor; auto.
Qed.

Lemma well_named_child (d : Entry) (k : string) (x : Entry) :
  well_named d -> child_of d k = Some x -> name x = k /\ well_named x.
Proof.
  destruct d as [|n c m s es]; simpl child_of; [discriminate|].
  intros [_ Hall]%well_named_dir Hget%map_get_In.
  rewrite List.Forall_forall in Hall. exact (Hall _ Hget).
Qed.

Lemma well_named_resolve (segs : list string) (r d : Entry) :
  well_named r -> resolve segs r = Some d -> well_named d.
Proof.
  revert r. induction segs as [|seg rest IH]; intros r Hr; simpl.
  - now intros [= <-].
  - destruct (child_of r seg) as [x|] eqn:Hx; [|discriminate].
    apply IH. now apply (well_named_child r seg x).
Qed.

Lemma well_named_update_at (parts : list string) (g : Entry -> Entry) :
  (forall d, well_named d -> well_named (g d)) ->
  (forall d, name (g d) = name d) ->
  forall r, well_named r ->
            well_named (update_at parts g r) /\
            name (update_at parts g r) = name r.
Proof.
  intros Hg Hname. induction parts as [|part rest IH]; intros r Hr; simpl.
  - split; [now apply Hg|apply Hname].
  - destruct (Path.falsy part); [now apply IH|].
    destruct r as [|n c m s es]; [now split|]. split; [|reflexivity].
    apply well_named_dir in Hr as [Hkeys Hall]. apply well_named_dir. split.
    + now rewrite keys_map_adjust.
    + apply Forall_map_adjust; [exact Hall|].
      intros k' v [Hn Hv]. simpl in *. destruct (IH v Hv) as [Hw Hn'].
      split; [now rewrite Hn'|exact Hw].
Qed.

Lemma well_named_set_child (b : string) (f d : Entry) :
  name f = b -> well_named f -> well_named d -> well_named (set_child b f d).
Proof.
  intros Hn Hf Hd. destruct d as [|n c m s es]; [exact Hd|].
  apply well_named_dir in Hd as [Hkeys Hall]. apply well_named_dir. split.
  - now apply NoDup_map_set.
  - apply Forall_map_set; [exact Hall|now split].
Qed.

Lemma well_named_written uri content now n c m s d r :
  n = Path.basename (path uri) ->
  well_named r -> well_named (written uri content now (File n c m s d) r).
Proof.
  intros -> Hr. unfold written.
  apply well_named_update_at; [| |exact Hr].
  - intros x Hx. now apply well_named_set_child.
  - now intros [|].
Qed.

(** X9.  The tree invariant "every child is stored in its parent under
    its own name, and no name occurs twice in a directory" is kept by
    [writeFile] and by [createDirectory], whatever their outcome; the
    empty root of a new provider satisfies it. *)
Theorem operations_keep_names (host : Host) (uri : Uri)
    (content : list Byte.byte) (create overwrite : bool) (st : State) :
  (forall now, well_named (Directory "" now now 0 [])) /\
  (well_named (root st) ->
   well_named (root (snd (writeFile host uri content create overwrite st))) /\
   well_named (root (snd (createDirectory uri st)))).
Proof.
  split; [intros now; simpl; split; [constructor|exact I]|].
  intros Hwf. split.
  - destruct (lookupParent_cases uri st) as [[e He]|[parent Hparent]].
    + rewrite (writeFile_parent_fails host uri content create overwrite st e)
        by now rewrite He.
      exact Hwf.
    + assert (Hold : forall n c m s d,
                 map_get (entries parent) (Path.basename (path uri)) =
                   Some (File n c m s d) ->
                 n = Path.basename (path uri)).
      { intros n c m s d Hget.
        apply lookupParent_spec in Hparent as [Hres Hdir].
        pose proof (well_named_resolve _ _ _ Hwf Hres) as Hp.
        destruct parent as [|pn pc pm ps es]; [discriminate|].
        now destruct (well_named_child _ _ _ Hp Hget). }
      rewrite (writeFile_cases _ _ _ _ _ _ _ Hparent).
      destruct (map_get (entries parent) (Path.basename (path uri)))
        as [[n c m s d|n c m s es]|] eqn:He.
      * destruct (create && negb overwrite); [exact Hwf|].
        destruct (hasDirty host st uri);
          [destruct (patch host _ _); [exact Hwf|]|];
          apply well_named_written; eauto.
      * exact Hwf.
      * destruct create; [|exact Hwf]. now apply well_named_written.
  - rewrite createDirectory_cases.
    destruct (resolve (Path.segments (path uri)) (root st)); [exact Hwf|].
    destruct (resolve (Path.segments (Path.dirname (path uri))) (root st))
      as [parent|]; [|exact Hwf].
    destruct (isDirectory parent); [|exact Hwf]. cbn [snd root].
    apply well_named_update_at; [| |exact Hwf].
    + intros x Hx. destruct x as [|n c m s es]; [exact Hx|].
      apply well_named_dir in Hx as [Hkeys Hall]. apply well_named_dir. split.
      * now apply NoDup_map_set.
      * apply Forall_map_set; [exact Hall|].
        split; [reflexivity|]. simpl. split; [constructor|exact I].
    + now intros [|].
Qed.

Lemma operations_keep_names_witness :
  well_named (root Sample.fresh) /\
  well_named (root (snd (createDirectory Sample.site Sample.fresh))).
Proof.
  destruct (operations_keep_names (Sample.sample_host true) Sample.site
              Sample.hello true true Sample.fresh) as (Hnew & Hkeep).
  split; [exact (Hnew 0)|]. now destruct (Hkeep (Hnew 0)).
Defined.

(** X10.  In a tree that keeps the naming invariant, the entry that
    [stat] returns for an absolute path with a last name carries that
    last name as its [name], and the names that [readDirectory] pushes
    for a directory are pairwise distinct. *)
Theorem entries_are_named_by_their_path (host : Host) (uri : Uri)
    (st : State) :
  well_named (root st) ->
  (forall e,
      Path.is_absolute (path uri) = true ->
      Path.basename (path uri) <> "" ->
      stat uri st = (Ok (Some e), st) ->
      name e = Path.basename (path uri)) /\
  (forall names,
      fst (readDirectory host uri st) = Ok names ->
      NoDup (map fst names)).
Proof.
  intros Hwf. split.
  - intros e Habs Hb. unfold stat.
    rewrite lookup_spec, (segments_parent _ Habs Hb), resolve_app.
    destruct (resolve (Path.segments (Path.dirname (path uri))) (root st))
      as [d|] eqn:Hd; [|discriminate].
    simpl. destruct (child_of d (Path.basename (path uri))) as [x|] eqn:Hx;
      [|discriminate].
    intros [= <-]. pose proof (well_named_resolve _ _ _ Hwf Hd) as Hwd.
    now destruct (well_named_child _ _ _ Hwd Hx).
  - intros names. unfold readDirectory, try_catch. unfold bind at 1.
    rewrite lookupAsDirectory_spec.
    destruct (resolve (Path.segments (path uri)) (root st)) as [d|] eqn:Hd.
    + destruct d as [|n c m s es]; simpl.
      * intros [= <-]. constructor.
      * intros [= <-]. rewrite map_map. simpl.
        pose proof (well_named_resolve _ _ _ Hwf Hd) as Hwd.
        now apply well_named_dir in Hwd as [Hkeys _].
    + unfold _loadFromDataverseToVFS. run_vfs.
      destruct (_ && _); [|intros [= <-]; constructor].
      destruct (loadFromDataverse host _) as [[[]|e] st1]; simpl;
        [intros [= <-]; constructor|discriminate].
Qed.

Lemma entries_are_named_by_their_path_witness :
  well_named (root Sample.loaded) /\
  (exists e,
      stat Sample.home Sample.loaded = (Ok (Some e), Sample.loaded) /\
      name e = "home.html") /\
  (exists names,
      fst (readDirectory (Sample.sample_host true) Sample.webPages
             Sample.loaded) = Ok names /\
      names = [("home.html", FileT)] /\
      NoDup (map fst names)).
Proof.
  assert (Hloaded : well_named (root Sample.loaded)).
  { vm_compute. repeat split; repeat constructor; intros H; inversion H;
      subst; match goal with H' : _ ∈ [] |- _ => inversion H' end. }
  split; [exact Hloaded|split].
  - exists (File "home.html" 100 100 2 Sample.hello).
    split; [reflexivity|].
    destruct (entries_are_named_by_their_path (Sample.sample_host true)
                Sample.home Sample.loaded Hloaded) as [Hstat _].
    apply (Hstat (File "home.html" 100 100 2 Sample.hello));
      [reflexivity|discriminate|reflexivity].
  - exists [("home.html", FileT)]. split; [reflexivity|split; [reflexivity|]].
    destruct (entries_are_named_by_their_path (Sample.sample_host true)
                Sample.webPages Sample.loaded Hloaded) as [_ Hnames].
    apply (Hnames [("home.html", FileT)]). reflexivity.
Defined.

(** ** The event buffer and its timer *)

Module EventsFacts.
Import Events.

Lemma clearTimeout_single handle : clearTimeout handle [handle] = [].
Proof. unfold clearTimeout. simpl. now rewrite Nat.eqb_refl. Qed.

Lemma tidy_fireSoon events e :
  tidy e ->
  pending (_fireSoon events e) = [nextHandle e] /\
  _fireSoonHandle (_fireSoon events e) = Some (nextHandle e).
Proof.
  intros [[Hnone|(handle & Hh & Hp)] _]; unfold _fireSoon; simpl.
  - rewrite Hnone. now destruct (_fireSoonHandle e).
  - now rewrite Hh, Hp, clearTimeout_single.
Qed.

Lemma tidy_step e s : tidy e -> tidy (step e s).
Proof.
  intros He. destruct s as [events|handle]; simpl.
  - destruct (tidy_fireSoon events e He) as [Hp Hh]. split.
    + right. eauto.
    + intros _. now rewrite Hp.
  - unfold timeout. destruct (existsb _ _) eqn:Hdue; [|exact He].
    destruct He as [[Hnone|(h & Hh & Hp)] _].
    + rewrite Hnone in Hdue. discriminate.
    + rewrite Hp in *. simpl in Hdue. rewrite orb_false_r in Hdue.
      apply Nat.eqb_eq in Hdue. subst. rewrite clearTimeout_single.
      split; [now left|]. simpl. congruence.
Qed.

Lemma tidy_run steps e : tidy e -> tidy (run steps e).
Proof.
  revert e. induction steps as [|s steps IH]; intros e He; [exact He|].
  apply IH. now apply tidy_step.
Qed.

Lemma tidy_initial : tidy initial.
Proof. split; [now left|]. simpl. congruence. Qed.

Lemma run_app a b e : run (a ++ b) e = run b (run a e).
Proof. apply fold_left_app. Qed.

Lemma step_keeps_events e s :
  concat (fired (step e s)) ++ _bufferedEvents (step e s) =
  concat (fired e) ++ _bufferedEvents e ++ announced [s].
Proof.
  destruct s as [events|handle]; simpl.
  - now rewrite app_nil_r.
  - unfold timeout. destruct (existsb _ _); simpl.
    + rewrite concat_app. simpl. now rewrite !app_nil_r.
    + now rewrite !app_nil_r.
Qed.

End EventsFacts.

(** X11.  The debounce of [_fireSoon] keeps at most one timer alive: in
    every state reached from a new provider by [_fireSoon] calls and
    timers coming due, in any order, at most one timer is pending, it is
    the one whose handle is kept, and whenever events are buffered a
    timer is pending that will fire them. *)
Theorem fireSoon_keeps_one_timer (steps : list Events.Step) :
  let e := Events.run steps Events.initial in
  (length (Events.pending e) <= 1)%nat /\
  (forall handle, In handle (Events.pending e) ->
                  Events._fireSoonHandle e = Some handle) /\
  (Events._bufferedEvents e <> [] -> Events.pending e <> []).
Proof.
  intros e.
  destruct (EventsFacts.tidy_run steps _ EventsFacts.tidy_initial)
    as [Hone Hbuffered].
  fold e in Hone, Hbuffered. split; [|split; [|exact Hbuffered]].
  - destruct Hone as [->|(h & _ & ->)]; simpl; lia.
  - intros handle Hin. destruct Hone as [Hnone|(h & Hh & Hp)].
    + rewrite Hnone in Hin. destruct Hin.
    + rewrite Hp in Hin. destruct Hin as [<-|[]]. exact Hh.
Qed.

Lemma fireSoon_keeps_one_timer_witness :
  Events.pending
    (Events.run
       [Events.FireSoon [mkEvent Created Sample.home];
        Events.FireSoon [mkEvent Changed Sample.home]]
       Events.initial) <> [].
Proof.
  destruct (fireSoon_keeps_one_timer
              [Events.FireSoon [mkEvent Created Sample.home];
               Events.FireSoon [mkEvent Changed Sample.home]])
    as (_ & _ & Hpending).
  apply Hpending. discriminate.
Defined.

(** X12.  No change event is lost, duplicated or reordered: at any point
    of a run, the batches fired so far followed by what is still
    buffered are exactly the events passed to [_fireSoon], in the order
    they were passed. *)
Theorem fireSoon_loses_no_event (steps : list Events.Step) :
  let e := Events.run steps Events.initial in
  concat (Events.fired e) ++ Events._bufferedEvents e = Events.announced steps.
Proof.
  intros e. subst e.
  enough (H : forall e0,
             concat (Events.fired (Events.run steps e0)) ++
             Events._bufferedEvents (Events.run steps e0) =
             concat (Events.fired e0) ++ Events._bufferedEvents e0 ++
             Events.announced steps) by apply (H Events.initial).
  induction steps as [|s steps IH]; intros e0.
  - simpl. now rewrite app_nil_r.
  - change (Events.run (s :: steps) e0)
      with (Events.run steps (Events.step e0 s)).
    rewrite IH.
    pose proof (EventsFacts.step_keeps_events e0 s) as Hs.
    rewrite app_assoc, Hs. unfold Events.announced. simpl.
    now rewrite app_nil_r, <- !app_assoc.
Qed.

(** X13.  Coalescing: in a state reached from a new provider, a burst
    of [_fireSoon] calls with no timer coming due in between emits
    nothing and leaves exactly one pending timer; when that timer comes
    due, everything buffered before and during the burst is fired as
    one batch, in order, and the buffer is empty. *)
Theorem fireSoon_burst_is_one_batch (steps : list Events.Step)
    (burst : list (list FileChangeEvent)) :
  burst <> [] ->
  let e := Events.run steps Events.initial in
  let e' := Events.run (map Events.FireSoon burst) e in
  Events.fired e' = Events.fired e /\
  exists handle,
    Events._fireSoonHandle e' = Some handle /\
    Events.pending e' = [handle] /\
    Events.fired (Events.timeout handle e') =
      Events.fired e ++ [Events._bufferedEvents e ++ concat burst] /\
    Events._bufferedEvents (Events.timeout handle e') = [] /\
    Events.pending (Events.timeout handle e') = [].
Proof.
  intros Hburst e e'.
  pose proof (EventsFacts.tidy_run steps _ EventsFacts.tidy_initial) as He.
  fold e in He. subst e'. generalize dependent e. clear steps.
  induction burst as [|events burst IH] using rev_ind; [contradiction|].
  intros e He. rewrite map_app, EventsFacts.run_app. simpl.
  set (e1 := Events.run (map Events.FireSoon burst) e).
  assert (He1 : Events.tidy e1) by now apply EventsFacts.tidy_run.
  assert (Hfired : Events.fired e1 = Events.fired e /\
                   Events._bufferedEvents e1 =
                     Events._bufferedEvents e ++ concat burst).
  { subst e1. clear IH Hburst He He1. revert e.
    induction burst as [|ev burst IHb]; intros e; simpl.
    - now rewrite app_nil_r.
    - destruct (IHb (Events._fireSoon ev e)) as [H1 H2].
      unfold Events.run in *. rewrite H1, H2. simpl.
      now rewrite <- app_assoc. }
  destruct Hfired as [Hf Hb].
  destruct (EventsFacts.tidy_fireSoon events e1 He1) as [Hp Hh].
  split; [exact Hf|]. exists (Events.nextHandle e1).
  split; [exact Hh|]. split; [exact Hp|].
  assert (Hdue : existsb (Nat.eqb (Events.nextHandle e1))
                   [Events.nextHandle e1] = true)
    by (simpl; now rewrite Nat.eqb_refl).
  unfold Events.timeout. rewrite Hp, Hdue.
  cbn [Events.fired Events._bufferedEvents Events.pending].
  rewrite EventsFacts.clearTimeout_single. repeat split.
  unfold Events._fireSoon.
  cbn [Events.fired Events._bufferedEvents Events.pending].
  rewrite Hf, Hb, concat_app. simpl. now rewrite app_nil_r, <- app_assoc.
Qed.

Lemma fireSoon_burst_is_one_batch_witness :
  [[mkEvent Created Sample.home]; [mkEvent Changed Sample.home]] <> [] /\
  exists handle,
    Events.fired
      (Events.timeout handle
         (Events.run
            (map Events.FireSoon
               [[mkEvent Created Sample.home]; [mkEvent Changed Sample.home]])
            (Events.run [] Events.initial))) =
    [[mkEvent Created Sample.home; mkEvent Changed Sample.home]].
Proof.
  split; [discriminate|].
  destruct (fireSoon_burst_is_one_batch []
              [[mkEvent Created Sample.home]; [mkEvent Changed Sample.home]])
    as (_ & handle & _ & _ & Hfired & _); [discriminate|].
  exists handle. exact Hfired.
Defined.

(** ** What [createDirectory] keeps *)

(** Mutating the directory reached along [parts] keeps every walk that
    resolved, when the mutation keeps the walks below that directory. *)
Lemma resolve_update_kept (parts : list string) (g : Entry -> Entry) :
  forall (r parent : Entry),
    resolve (walked parts) r = Some parent ->
    (forall q e, q <> [] -> resolve q parent = Some e ->
                 resolve q (g parent) = Some e) ->
    isDirectory (g parent) = isDirectory parent ->
    forall q e,
      resolve q r = Some e ->
      exists e', resolve q (update_at parts g r) = Some e' /\
                 isDirectory e' = isDirectory e.
Proof.
  induction parts as [|part rest IH]; intros r parent.
  - simpl. intros [= <-] Hbelow Htype [|seg q] e Hq.
    + injection Hq as <-. now exists (g r).
    + exists e. split; [|reflexivity]. now apply Hbelow.
  - simpl. destruct (Path.falsy part) eqn:Hfalsy; simpl; [apply IH|].
    destruct r as [n c m s d|n c m s es]; simpl; [discriminate|].
    destruct (map_get es part) as [child|] eqn:Hchild; [|discriminate].
    intros Hres Hbelow Htype [|seg q] e Hq.
    + injection Hq as <-. eexists. split; reflexivity.
    + simpl in *. destruct (string_dec part seg) as [<-|Hne].
      * rewrite map_get_adjust_eq, Hchild in *. simpl.
        now apply (IH child parent Hres Hbelow Htype).
      * rewrite (map_get_adjust_ne _ _ _ _ Hne). now exists e.
Qed.

(** Every walk that resolved before [createDirectory] on an absolute
    path resolves after it, to an entry of the same kind. *)
Lemma createDirectory_resolve_kept (uri : Uri) (st : State)
    (q : list string) (e : Entry) :
  Path.is_absolute (path uri) = true ->
  resolve q (root st) = Some e ->
  exists e', resolve q (root (snd (createDirectory uri st))) = Some e' /\
             isDirectory e' = isDirectory e.
Proof.
  intros Habs Hq. rewrite createDirectory_cases.
  destruct (resolve (Path.segments (path uri)) (root st)) eqn:Hnone;
    [now exists e|].
  destruct (resolve (Path.segments (Path.dirname (path uri))) (root st))
    as [parent|] eqn:Hparent; [|now exists e].
  destruct (isDirectory parent) eqn:Hdir; [|now exists e].
  cbn [snd root].
  destruct (absent_child_of_parent _ _ _ Habs Hnone Hparent) as [Hb Hfresh].
  apply resolve_update_kept with (parent := parent); [exact Hparent| | |exact Hq].
  - destruct parent as [|pn pc pm ps es]; [discriminate|].
    intros [|seg rest] e0 Hne; [contradiction|]. simpl in *.
    destruct (string_dec (Path.basename (path uri)) seg) as [<-|Hseg].
    + now rewrite Hfresh.
    + now rewrite (map_get_set_ne _ _ _ _ Hseg).
  - now destruct parent.
Qed.

(** After a successful [createDirectory] on an absolute path, a walk
    along the path finds an entry. *)
Lemma createDirectory_found (uri : Uri) (st : State) :
  Path.is_absolute (path uri) = true ->
  fst (createDirectory uri st) = Ok tt ->
  exists e, resolve (Path.segments (path uri))
              (root (snd (createDirectory uri st))) = Some e.
Proof.
  intros Habs. rewrite createDirectory_cases.
  destruct (resolve (Path.segments (path uri)) (root st)) as [e|] eqn:Hnone.
  { intros _. now exists e. }
  destruct (resolve (Path.segments (Path.dirname (path uri))) (root st))
    as [parent|] eqn:Hparent; [|discriminate].
  destruct (isDirectory parent) eqn:Hdir; [|discriminate].
  intros _. cbn [snd root].
  destruct (absent_child_of_parent _ _ _ Habs Hnone Hparent) as [Hb Hfresh].
  rewrite (segments_parent _ Habs Hb), resolve_app.
  rewrite (update_at_resolved _ _ _ _ Hparent).
  destruct parent as [|pn pc pm ps es]; [discriminate|]. simpl.
  rewrite map_get_set_eq. eauto.
Qed.

Lemma createDirectory_present (uri : Uri) (st : State) (e : Entry) :
  resolve (Path.segments (path uri)) (root st) = Some e ->
  createDirectory uri st = (Ok tt, st).
Proof. intros H. now rewrite createDirectory_cases, H. Qed.

(** X14.  [createDirectory] on an absolute path removes nothing: every
    URI at which a silent lookup found an entry before the call still has
    an entry after it, of the same kind (file or directory), and a
    successful call leaves an entry at its own URI. *)
Theorem createDirectory_keeps_entries (uri : Uri) (st : State) :
  Path.is_absolute (path uri) = true ->
  let st' := snd (createDirectory uri st) in
  (forall q e,
      fst (_lookup q true st) = Ok (Some e) ->
      exists e', fst (_lookup q true st') = Ok (Some e') /\
                 type e' = type e) /\
  (fst (createDirectory uri st) = Ok tt ->
   exists e, fst (_lookup uri true st') = Ok (Some e)).
Proof.
  intros Habs st'. subst st'. split.
  - intros q e. rewrite !lookup_spec. cbn [fst].
    destruct (resolve (Path.segments (path q)) (root st)) as [e0|] eqn:Hq;
      [|discriminate].
    intros [= ->].
    destruct (createDirectory_resolve_kept uri st _ _ Habs Hq) as (e' & -> & Ht).
    exists e'. split; [reflexivity|].
    destruct e', e; simpl in *; congruence.
  - intros Hok. destruct (createDirectory_found uri st Habs Hok) as [e He].
    exists e. rewrite lookup_spec. cbn [fst]. now rewrite He.
Qed.

Lemma createDirectory_keeps_entries_witness :
  Path.is_absolute (path Sample.other) = true /\
  (exists e',
      fst (_lookup Sample.webPages true
             (snd (createDirectory Sample.other Sample.loaded))) = Ok (Some e') /\
      type e' = DirectoryT).
Proof.
  split; [reflexivity|].
  destruct (createDirectory_keeps_entries Sample.other Sample.loaded eq_refl)
    as [Hkept _].
  destruct (Hkept Sample.webPages Sample.webPagesDir)
    as (e' & He & Ht); [reflexivity|].
  exists e'. split; [exact He|exact Ht].
Defined.

(** ** Creating the site folders *)

Module DataverseFacts.
Import Dataverse.

Lemma lbind_notice {B} (n : Notice) (k : unit -> L B) st log :
  lbind (notice n) k (st, log) = k tt (st, log ++ [n]).
Proof. reflexivity. Qed.

Lemma lbind_result {A B} (r : Result A) (k : A -> L B) s :
  lbind (result r) k s =
  match r with Ok a => k a s | Throw e => (Throw e, s) end.
Proof. now destruct r. Qed.

Lemma lbind_lift {A B} (m : M A) (k : A -> L B) st log :
  lbind (lift m) k (st, log) =
  match fst (m st) with
  | Ok a => k a (snd (m st), log)
  | Throw e => (Throw e, (snd (m st), log))
  end.
Proof. unfold lbind, lift. simpl. now destruct (m st) as [[|] ?]. Qed.

Lemma lift_run {A} (m : M A) st log :
  lift m (st, log) = (fst (m st), (snd (m st), log)).
Proof. unfold lift. simpl. now destruct (m st). Qed.

(** The steps of a [createFileSystem] that returns. *)
Lemma createFileSystem_ok (W : Workbench) (name : string)
    (st st1 : State) (log log1 : list Notice) :
  createFileSystem W name (st, log) = (Ok tt, (st1, log1)) ->
  exists u folder,
    parse W (portalUri W (String.append name "/")) true = Ok u /\
    parse W (portalUri W (String.append name "/")) false = Ok folder /\
    fst (createDirectory u st) = Ok tt /\
    Nat.eqb (String.length name) 0 = false /\
    createEntityFolder W name
      (snd (createDirectory u st),
       log ++ [sendInfoTelemetry WEB_EXTENSION_CREATE_ROOT_FOLDER;
               updateWorkspaceFolders
                 match workspaceFolders W with
                 | Some length => length
                 | None => 0%nat
                 end folder name]) =
    (Ok tt, (st1, log1)).
Proof.
  unfold createFileSystem.
  destruct (Nat.eqb (String.length name) 0); [intros [=]|].
  rewrite lbind_notice, lbind_result.
  destruct (parse W (portalUri W (String.append name "/")) true) as [u|];
    [|intros [=]].
  rewrite lbind_lift.
  destruct (fst (createDirectory u st)) as [[]|] eqn:Hdir; [|intros [=]].
  rewrite lbind_result.
  destruct (parse W (portalUri W (String.append name "/")) false)
    as [folder|]; [|intros [=]].
  rewrite lbind_notice, <- app_assoc. cbn [app].
  intros H. exists u, folder. repeat split; try reflexivity; assumption.
Qed.

(** The steps of a [createEntityFolder] that returns: it either leaves
    the tree alone, whatever the state, or creates the directory of one
    URI, whatever the state. *)
Lemma createEntityFolder_ok (W : Workbench) (name : string)
    (st st1 : State) (log log1 : list Notice) :
  createEntityFolder W name (st, log) = (Ok tt, (st1, log1)) ->
  log1 = log ++ [sendInfoTelemetry WEB_EXTENSION_CREATE_ENTITY_FOLDER] /\
  ((st1 = st /\
    forall s log', createEntityFolder W name (s, log') =
      (Ok tt, (s, log' ++ [sendInfoTelemetry WEB_EXTENSION_CREATE_ENTITY_FOLDER]))) \/
   (exists u,
      parse W (entityFolderUri W name) true = Ok u /\
      fst (createDirectory u st) = Ok tt /\
      st1 = snd (createDirectory u st) /\
      forall s log', createEntityFolder W name (s, log') =
        (fst (createDirectory u s),
         (snd (createDirectory u s),
          log' ++ [sendInfoTelemetry WEB_EXTENSION_CREATE_ENTITY_FOLDER])))).
Proof.
  unfold createEntityFolder, entityFolderUri.
  destruct (match match getEntity W (defaultEntityType W) with
                  | Some m => m !! FILE_FOLDER_NAME W
                  | None => None
                  end with
            | Some s => Nat.eqb (String.length s) 0
            | None => false
            end); [intros [=]|].
  rewrite lbind_notice.
  destruct (match match getEntity W (defaultEntityType W) with
                  | Some m => m !! EXPORT_TYPE W
                  | None => None
                  end with
            | Some t => _
            | None => false
            end).
  - match goal with
    | |- context [parse W (portalUri W ?r) true] => set (rest := r)
    end.
    rewrite lbind_result.
    destruct (parse W (portalUri W rest) true) as [u|] eqn:Hu;
      [|intros [=]].
    rewrite lift_run. intros [= Hok <- <-]. split; [reflexivity|]. right.
    exists u.
    split; [reflexivity|split; [exact Hok|split; [reflexivity|]]].
    intros s log'. now rewrite lbind_notice, lbind_result, lift_run.
  - intros [= <- <-]. split; [reflexivity|]. left. split; [reflexivity|].
    intros s log'. now rewrite lbind_notice.
Qed.

(** [createFileSystem] once the name is not empty and both URIs parse. *)
Lemma createFileSystem_steps (W : Workbench) (name : string)
    (u folder : Uri) (s : State) (l : list Notice) :
  Nat.eqb (String.length name) 0 = false ->
  parse W (portalUri W (String.append name "/")) true = Ok u ->
  parse W (portalUri W (String.append name "/")) false = Ok folder ->
  createFileSystem W name (s, l) =
  match fst (createDirectory u s) with
  | Ok _ =>
      createEntityFolder W name
        (snd (createDirectory u s),
         l ++ [sendInfoTelemetry WEB_EXTENSION_CREATE_ROOT_FOLDER;
               updateWorkspaceFolders
                 match workspaceFolders W with
                 | Some length => length
                 | None => 0%nat
                 end folder name])
  | Throw e =>
      (Throw e,
       (snd (createDirectory u s),
        l ++ [sendInfoTelemetry WEB_EXTENSION_CREATE_ROOT_FOLDER]))
  end.
Proof.
  intros Hlen Hu Hfolder. unfold createFileSystem.
  rewrite Hlen, lbind_notice, lbind_result, Hu, lbind_lift.
  destruct (fst (createDirectory u s)); [|reflexivity].
  now rewrite lbind_result, Hfolder, lbind_notice, <- app_assoc.
Qed.

Lemma sample_parse_absolute (rest : string) (strict : bool) (u : Uri) :
  sample_parse (String.append "powerplatform-vfs" (String.append ":/" rest))
    strict = Ok u ->
  Path.is_absolute (path u) = true.
Proof. simpl. now intros [= <-]. Qed.

(** What [createEntityFolder] does to the state: nothing, or the
    [createDirectory] of the entity folder URI. *)
Lemma createEntityFolder_state (W : Workbench) (name : string)
    (s : State) (l : list Notice) :
  (exists l', snd (snd (createEntityFolder W name (s, l))) = l ++ l') /\
  (fst (snd (createEntityFolder W name (s, l))) = s \/
   exists u,
     parse W (entityFolderUri W name) true = Ok u /\
     fst (snd (createEntityFolder W name (s, l))) = snd (createDirectory u s)).
Proof.
  unfold createEntityFolder, entityFolderUri.
  destruct (match match getEntity W (defaultEntityType W) with
                  | Some m => m !! FILE_FOLDER_NAME W
                  | None => None
                  end with
            | Some s => Nat.eqb (String.length s) 0
            | None => false
            end).
  { split; [exists []; now rewrite app_nil_r|now left]. }
  rewrite lbind_notice.
  destruct (match match getEntity W (defaultEntityType W) with
                  | Some m => m !! EXPORT_TYPE W
                  | None => None
                  end with
            | Some t => _
            | None => false
            end).
  - rewrite lbind_result.
    match goal with
    | |- context [parse W (portalUri W ?r) true] => set (rest := r)
    end.
    destruct (parse W (portalUri W rest) true) as [u|] eqn:Hu.
    + rewrite lift_run. cbn [fst snd]. split; [eauto|]. right.
      now exists u.
    + cbn [fst snd]. split; [eauto|now left].
  - cbn [fst snd]. split; [eauto|now left].
Qed.

(** [createEntityFolder] for an entity exported to a folder. *)
Lemma createEntityFolder_folder (W : Workbench) (name : string)
    (m : gmap string string) (t : string) (s : State) (l : list Notice) :
  getEntity W (defaultEntityType W) = Some m ->
  m !! EXPORT_TYPE W = Some t ->
  Path.falsy t = false ->
  t = SubFolders W \/ t = SingleFolder W ->
  Path.falsy (interpolate (m !! FILE_FOLDER_NAME W)) = false ->
  createEntityFolder W name (s, l) =
  match parse W
          (portalUri W
             (String.append name
                (String.append "/"
                   (String.append (interpolate (m !! FILE_FOLDER_NAME W)) "/"))))
          true with
  | Ok u =>
      (fst (createDirectory u s),
       (snd (createDirectory u s),
        l ++ [sendInfoTelemetry WEB_EXTENSION_CREATE_ENTITY_FOLDER]))
  | Throw e =>
      (Throw e, (s, l ++ [sendInfoTelemetry WEB_EXTENSION_CREATE_ENTITY_FOLDER]))
  end.
Proof.
  intros Hm Ht Htruthy Hkind Hsub. unfold createEntityFolder.
  rewrite Hm, Ht, Htruthy.
  assert (String.eqb t (SubFolders W) || String.eqb t (SingleFolder W) = true)
    as ->.
  { destruct Hkind as [<-|<-]; rewrite String.eqb_refl;
      [reflexivity|apply orb_true_r]. }
  destruct (m !! FILE_FOLDER_NAME W) as [[|c sub]|]; [discriminate| |];
    cbn [String.length Nat.eqb negb andb];
    rewrite lbind_notice, lbind_result;
    (destruct (parse W _ true); [now rewrite lift_run|reflexivity]).
Qed.

Lemma segments_plain (name : string) :
  plainName name = true -> Path.segments name = [name].
Proof.
  unfold plainName. intros [Hne Hplain]%andb_prop.
  rewrite segments_of_chars, (PathFacts.segments_chars_no_slash _ Hplain).
  destruct name; [discriminate|]. simpl.
  now rewrite string_of_list_ascii_of_string.
Qed.

Lemma segments_site (name : string) :
  plainName name = true ->
  Path.segments (String.append "/" (String.append name "/")) = [name].
Proof.
  intros H.
  change (String.append "/" (String.append name "/"))
    with (String.append "" (String "/" (String.append name (String "/" "")))).
  now rewrite !segments_append_slash, (segments_plain _ H).
Qed.

Lemma segments_entity (name sub : string) :
  plainName name = true -> plainName sub = true ->
  Path.segments
    (String.append "/"
       (String.append name (String.append "/" (String.append sub "/")))) =
  [name; sub].
Proof.
  intros Hname Hsub.
  change (String.append "/"
            (String.append name (String.append "/" (String.append sub "/"))))
    with (String.append ""
            (String "/"
               (String.append name
                  (String "/" (String.append sub (String "/" "")))))).
  now rewrite !segments_append_slash, (segments_plain _ Hname),
    (segments_plain _ Hsub).
Qed.

End DataverseFacts.

(** X15.  Running [createFileSystem] again after it returned changes
    neither the tree nor the buffered events: both [createDirectory]
    calls find their folder.  It does repeat its notices, the workspace
    folder update among them.  This holds when the two URIs that the call
    parses, the site folder's and the entity folder's, have absolute
    paths. *)
Theorem createFileSystem_again (W : Dataverse.Workbench) (name : string)
    (st st1 : State) (log log1 : list Dataverse.Notice) :
  (forall u,
      Dataverse.parse W (Dataverse.siteFolderUri W name) true = Ok u ->
      Path.is_absolute (path u) = true) ->
  (forall u,
      Dataverse.parse W (Dataverse.entityFolderUri W name) true = Ok u ->
      Path.is_absolute (path u) = true) ->
  Dataverse.createFileSystem W name (st, log) = (Ok tt, (st1, log1)) ->
  exists folder,
    Dataverse.parse W (Dataverse.siteFolderUri W name) false = Ok folder /\
    log1 = log ++ Dataverse.folderNotices W folder name /\
    Dataverse.createFileSystem W name (st1, log1) =
      (Ok tt, (st1, log1 ++ Dataverse.folderNotices W folder name)).
Proof.
  intros Hsite Hentityabs Hrun.
  destruct (DataverseFacts.createFileSystem_ok _ _ _ _ _ _ Hrun)
    as (u & folder & Hu & Hfolder & Hdir & Hlen & Hentity).
  destruct (DataverseFacts.createEntityFolder_ok _ _ _ _ _ _ Hentity)
    as (Hlog & Hcases).
  assert (Hlog1 : log1 = log ++ Dataverse.folderNotices W folder name).
  { rewrite Hlog, <- app_assoc. reflexivity. }
  exists folder. split; [exact Hfolder|split; [exact Hlog1|]].
  rewrite (DataverseFacts.createFileSystem_steps W name u folder st1 log1 Hlen Hu Hfolder).
  destruct (createDirectory_found u st (Hsite _ Hu) Hdir) as [e He].
  destruct Hcases as [[-> Hsame]|(u3 & Hu3 & Hdir3 & -> & Hsame)].
  - rewrite (createDirectory_present u _ e He). cbn [fst snd].
    rewrite Hsame, <- app_assoc. reflexivity.
  - destruct (createDirectory_resolve_kept u3 _ _ _ (Hentityabs _ Hu3) He)
      as (e' & He' & _).
    rewrite (createDirectory_present u _ e' He'). cbn [fst snd].
    destruct (createDirectory_found u3 _ (Hentityabs _ Hu3) Hdir3) as [e3 He3].
    rewrite Hsame, (createDirectory_present u3 _ e3 He3), <- app_assoc.
    reflexivity.
Qed.

Lemma createFileSystem_again_witness :
  fst (Dataverse.createFileSystem
         (Dataverse.sample_workbench (Some Dataverse.webpages_schema)) "site"
         (Sample.fresh, [])) = Ok tt /\
  root (fst (snd (Dataverse.createFileSystem
                    (Dataverse.sample_workbench (Some Dataverse.webpages_schema))
                    "site" (Sample.fresh, [])))) =
    Directory "" 0 100 1
      [("site",
        Directory "site" 100 100 1
          [("web-pages", Directory "web-pages" 100 100 0 [])])] /\
  exists folder,
    Dataverse.createFileSystem
      (Dataverse.sample_workbench (Some Dataverse.webpages_schema)) "site"
      (snd (Dataverse.createFileSystem
              (Dataverse.sample_workbench (Some Dataverse.webpages_schema))
              "site" (Sample.fresh, []))) =
    (Ok tt,
     (fst (snd (Dataverse.createFileSystem
                  (Dataverse.sample_workbench (Some Dataverse.webpages_schema))
                  "site" (Sample.fresh, []))),
      snd (snd (Dataverse.createFileSystem
                  (Dataverse.sample_workbench (Some Dataverse.webpages_schema))
                  "site" (Sample.fresh, []))) ++
      Dataverse.folderNotices
        (Dataverse.sample_workbench (Some Dataverse.webpages_schema))
        folder "site")).
Proof.
  split; [reflexivity|split; [reflexivity|]].
  destruct (createFileSystem_again
              (Dataverse.sample_workbench (Some Dataverse.webpages_schema))
              "site" Sample.fresh
              (fst (snd (Dataverse.createFileSystem
                           (Dataverse.sample_workbench
                              (Some Dataverse.webpages_schema))
                           "site" (Sample.fresh, []))))
              []
              (snd (snd (Dataverse.createFileSystem
                           (Dataverse.sample_workbench
                              (Some Dataverse.webpages_schema))
                           "site" (Sample.fresh, []))))
              (DataverseFacts.sample_parse_absolute "site/" true)
              (DataverseFacts.sample_parse_absolute "site/web-pages/" true)
              eq_refl)
    as (folder & _ & _ & Hagain).
  exists folder. exact Hagain.
Defined.

(** X16.  [createFileSystem] is not undone when [createEntityFolder]
    fails.  Once the site folder has been created at an absolute path, it
    is in the tree whatever comes after, and the workspace folder has
    been registered for it, provided the entity folder's URI, when it
    parses, has an absolute path too.  In particular, for an entity whose
    folder name in the schema is empty the call throws [SUBURI_EMPTY] and
    leaves the state that [createDirectory] of the site folder made. *)
Theorem createFileSystem_keeps_site_folder (W : Dataverse.Workbench)
    (name : string) (u folder : Uri) (st : State)
    (log : list Dataverse.Notice) :
  name <> "" ->
  Dataverse.parse W (Dataverse.siteFolderUri W name) true = Ok u ->
  Dataverse.parse W (Dataverse.siteFolderUri W name) false = Ok folder ->
  Path.is_absolute (path u) = true ->
  (forall u3,
      Dataverse.parse W (Dataverse.entityFolderUri W name) true = Ok u3 ->
      Path.is_absolute (path u3) = true) ->
  fst (createDirectory u st) = Ok tt ->
  let run := Dataverse.createFileSystem W name (st, log) in
  (exists e, fst (_lookup u true (fst (snd run))) = Ok (Some e)) /\
  In (Dataverse.updateWorkspaceFolders
        match Dataverse.workspaceFolders W with
        | Some length => length
        | None => 0%nat
        end folder name) (snd (snd run)) /\
  (forall m,
      Dataverse.getEntity W (Dataverse.defaultEntityType W) = Some m ->
      m !! Dataverse.FILE_FOLDER_NAME W = Some "" ->
      fst run = Throw (JsError (Dataverse.SUBURI_EMPTY W)) /\
      fst (snd run) = snd (createDirectory u st)).
Proof.
  intros Hname Hu Hfolder Habs Hentityabs Hdir run.
  assert (Hlen : Nat.eqb (String.length name) 0 = false)
    by (destruct name; [contradiction|reflexivity]).
  subst run.
  rewrite (DataverseFacts.createFileSystem_steps W name u folder st log
             Hlen Hu Hfolder), Hdir.
  destruct (createDirectory_found u st Habs Hdir) as [e He].
  match goal with
  | |- context [Dataverse.createEntityFolder W name (?s0, ?l0)] =>
      destruct (DataverseFacts.createEntityFolder_state W name s0 l0)
        as [[l' Hlog] Hstate]
  end.
  split; [|split].
  - rewrite lookup_spec. cbn [fst].
    destruct Hstate as [->|(u3 & Hu3 & ->)].
    + rewrite He. eauto.
    + destruct (createDirectory_resolve_kept u3 _ _ _ (Hentityabs _ Hu3) He)
        as (e' & -> & _). eauto.
  - rewrite Hlog. apply in_or_app. left. apply in_or_app. right.
    right. now left.
  - intros m Hm Hsub. unfold Dataverse.createEntityFolder.
    rewrite Hm, Hsub. split; reflexivity.
Qed.

Lemma createFileSystem_keeps_site_folder_witness :
  fst (Dataverse.createFileSystem
         (Dataverse.sample_workbench (Some Dataverse.nameless_schema))
         "site" (Sample.fresh, [])) =
    Throw (JsError "subUri is empty") /\
  exists e,
    fst (_lookup (Sample.vfs "/site/") true
           (fst (snd (Dataverse.createFileSystem
                        (Dataverse.sample_workbench
                           (Some Dataverse.nameless_schema))
                        "site" (Sample.fresh, []))))) = Ok (Some e).
Proof.
  destruct (createFileSystem_keeps_site_folder
              (Dataverse.sample_workbench (Some Dataverse.nameless_schema))
              "site" (Sample.vfs "/site/") (Sample.vfs "/site/")
              Sample.fresh []
              ltac:(discriminate) eq_refl eq_refl eq_refl
              (DataverseFacts.sample_parse_absolute "site//" true) eq_refl)
    as (Hsite & _ & Hempty).
  split; [|exact Hsite].
  exact (proj1 (Hempty _ eq_refl eq_refl)).
Defined.

(** X17.  [_loadFromDataverseToVFS] stops at its first failure.  When
    the authentication throws, no folder is created and nothing is
    logged.  When the website name among the URL parameters is empty,
    the load throws [PORTAL_FOLDER_NAME_EMPTY] after one error telemetry
    event, with the state as the authentication left it.  When
    [createFileSystem] throws, the load ends with that error and that
    state: the fetch from Dataverse is not started.  Otherwise the fetch
    runs on the state that [createFileSystem] left. *)
Theorem loadFromDataverse_stops_at_first_failure (W : Dataverse.Workbench)
    (st : State) (log : list Dataverse.Notice) :
  let auth := Dataverse.authenticateAndUpdateDataverseProperties W st in
  let website :=
    urlParametersMap (context (snd auth)) !! Dataverse.WEBSITE_NAME W in
  (forall e,
      fst auth = Throw e ->
      Dataverse._loadFromDataverseToVFS W (st, log) =
      (Throw e, (snd auth, log))) /\
  (fst auth = Ok tt ->
   website = Some "" ->
   Dataverse._loadFromDataverseToVFS W (st, log) =
   (Throw (JsError (Dataverse.PORTAL_FOLDER_NAME_EMPTY W)),
    (snd auth,
     log ++ [Dataverse.sendErrorTelemetry
               Dataverse.WEB_EXTENSION_EMPTY_PORTAL_FOLDER_NAME]))) /\
  (forall name e s,
      fst auth = Ok tt ->
      website = Some name ->
      Dataverse.createFileSystem W name (snd auth, log) = (Throw e, s) ->
      Dataverse._loadFromDataverseToVFS W (st, log) = (Throw e, s)) /\
  (forall name st1 log1,
      fst auth = Ok tt ->
      website = Some name ->
      Dataverse.createFileSystem W name (snd auth, log) =
        (Ok tt, (st1, log1)) ->
      Dataverse._loadFromDataverseToVFS W (st, log) =
      (fst (Dataverse.fetchDataFromDataverseAndUpdateVFS W st1),
       (snd (Dataverse.fetchDataFromDataverseAndUpdateVFS W st1), log1))).
Proof.
  intros auth website. subst auth website.
  unfold Dataverse._loadFromDataverseToVFS.
  rewrite DataverseFacts.lbind_lift.
  repeat split.
  - intros e ->. reflexivity.
  - intros -> Hweb. unfold Dataverse.lbind at 1. cbn [fst].
    unfold Dataverse.lbind at 1. rewrite Hweb. reflexivity.
  - intros name e s -> Hweb Hrun. unfold Dataverse.lbind at 1. cbn [fst].
    unfold Dataverse.lbind at 1. now rewrite Hweb, Hrun.
  - intros name st1 log1 -> Hweb Hrun. unfold Dataverse.lbind at 1. cbn [fst].
    unfold Dataverse.lbind at 1. rewrite Hweb, Hrun.
    apply DataverseFacts.lift_run.
Qed.

Lemma loadFromDataverse_stops_at_first_failure_witness :
  Dataverse._loadFromDataverseToVFS (Dataverse.sample_workbench None)
    (mkState (Directory "" 0 0 0 []) []
       (mkContext true Sample.site ∅ (<["websiteName" := ""]> ∅) "token-1")
       100 [], []) =
  (Throw (JsError "portal folder name is empty"),
   (mkState (Directory "" 0 0 0 []) []
      (mkContext true Sample.site ∅ (<["websiteName" := ""]> ∅) "token-1")
      100 [],
    [Dataverse.sendErrorTelemetry
       Dataverse.WEB_EXTENSION_EMPTY_PORTAL_FOLDER_NAME])).
Proof.
  destruct (loadFromDataverse_stops_at_first_failure
              (Dataverse.sample_workbench None)
              (mkState (Directory "" 0 0 0 []) []
                 (mkContext true Sample.site ∅ (<["websiteName" := ""]> ∅)
                    "token-1") 100 []) [])
    as (_ & Hempty & _).
  exact (Hempty eq_refl eq_refl).
Defined.

(** X18.  Where [createFileSystem] puts the folders.  Take a site name
    and a folder name that are single path segments and an entity
    exported as [SubFolders] or [SingleFolder], and let the entity
    folder's URI, when it parses, have the path [/name/folder/].  Then a
    [createFileSystem] that returns leaves a directory at [/name] with a
    child named by the folder name.  The folder name is the schema's
    [FILE_FOLDER_NAME] as the template string renders it: when the schema
    has none, the child is named [undefined]. *)
Theorem createFileSystem_makes_folders (W : Dataverse.Workbench)
    (name t : string) (m : gmap string string)
    (st st1 : State) (log log1 : list Dataverse.Notice) :
  let folderName :=
    Dataverse.interpolate (m !! Dataverse.FILE_FOLDER_NAME W) in
  Dataverse.plainName name = true ->
  Dataverse.plainName folderName = true ->
  Dataverse.getEntity W (Dataverse.defaultEntityType W) = Some m ->
  m !! Dataverse.EXPORT_TYPE W = Some t ->
  t <> "" ->
  t = Dataverse.SubFolders W \/ t = Dataverse.SingleFolder W ->
  (forall u,
      Dataverse.parse W (Dataverse.entityFolderUri W name) true = Ok u ->
      path u =
      String.append "/"
        (String.append name
           (String.append "/" (String.append folderName "/")))) ->
  Dataverse.createFileSystem W name (st, log) = (Ok tt, (st1, log1)) ->
  exists site entity,
    (forall uri, path uri = String.append "/" name ->
                 _lookupAsDirectory uri false st1 = (Ok site, st1)) /\
    (forall uri,
        path uri =
          String.append "/" (String.append name (String.append "/" folderName)) ->
        _lookup uri true st1 = (Ok (Some entity), st1)) /\
    map_get (entries site) folderName = Some entity.
Proof.
  intros folderName Hname Hsub Hm Ht Htruthy Hkind Hpath Hrun.
  destruct (DataverseFacts.createFileSystem_ok _ _ _ _ _ _ Hrun)
    as (u & folder & Hu & Hfolder & Hdir & Hlen & Hentity).
  assert (Hfalsy : Path.falsy t = false).
  { destruct t; [exfalso; now apply Htruthy|reflexivity]. }
  assert (Hsub' : Path.falsy folderName = false).
  { unfold Dataverse.plainName in Hsub. apply andb_prop in Hsub as [H _].
    now apply negb_true_iff in H. }
  rewrite (DataverseFacts.createEntityFolder_folder W name m t _ _
             Hm Ht Hfalsy Hkind Hsub') in Hentity.
  unfold Dataverse.entityFolderUri in Hpath. rewrite Hm in Hpath.
  fold folderName in Hentity, Hpath.
  destruct (Dataverse.parse W _ true) as [u3|] eqn:Hu3 in Hentity;
    [|discriminate].
  injection Hentity as Hdir3 Hst1 _.
  assert (Habs3 : Path.is_absolute (path u3) = true)
    by now rewrite (Hpath _ Hu3).
  destruct (createDirectory_found u3 _ Habs3 Hdir3) as [e3 He3].
  rewrite Hst1, (Hpath _ Hu3),
    (DataverseFacts.segments_entity _ _ Hname Hsub) in He3.
  simpl in He3.
  destruct (child_of (root st1) name) as [site|] eqn:Hsite; [|discriminate].
  exists site, e3.
  assert (Hsegs1 : Path.segments (String.append "/" name) = [name]).
  { change (String.append "/" name) with (String.append "" (String "/" name)).
    now rewrite segments_append_slash, (DataverseFacts.segments_plain _ Hname). }
  assert (Hsegs2 :
    Path.segments
      (String.append "/" (String.append name (String.append "/" folderName))) =
    [name; folderName]).
  { change (String.append "/" (String.append name (String.append "/" folderName)))
      with (String.append "" (String "/" (String.append name (String "/" folderName)))).
    now rewrite !segments_append_slash, (DataverseFacts.segments_plain _ Hname),
      (DataverseFacts.segments_plain _ Hsub). }
  destruct site as [|sn sc sm ss ses]; [discriminate|].
  split; [|split].
  - intros uri Huri. rewrite lookupAsDirectory_spec, Huri, Hsegs1. simpl.
    now rewrite Hsite.
  - intros uri Huri. rewrite lookup_spec, Huri, Hsegs2. simpl.
    rewrite Hsite. simpl. simpl in He3.
    destruct (map_get ses folderName) as [child|]; [|discriminate].
    now injection He3 as ->.
  - simpl in *. destruct (map_get ses folderName) as [child|]; [|discriminate].
    now injection He3 as ->.
Qed.

Lemma substring_all (s : string) : String.substring 0 (String.length s) s = s.
Proof. induction s as [|c s IH]; simpl; [reflexivity|now rewrite IH]. Qed.

Lemma sample_parse_path (rest : string) (strict : bool) (u : Uri) :
  Dataverse.sample_parse
    (String.append "powerplatform-vfs" (String.append ":/" rest)) strict =
    Ok u ->
  path u = String.append "/" rest.
Proof. simpl. intros [= <-]. simpl. now rewrite substring_all. Qed.

Lemma createFileSystem_makes_folders_witness :
  exists site entity,
    _lookupAsDirectory (Sample.vfs "/site") false
      (fst (snd (Dataverse.createFileSystem
                   (Dataverse.sample_workbench (Some Dataverse.folderless_schema))
                   "site" (Sample.fresh, [])))) =
    (Ok site,
     fst (snd (Dataverse.createFileSystem
                 (Dataverse.sample_workbench (Some Dataverse.folderless_schema))
                 "site" (Sample.fresh, [])))) /\
    map_get (entries site) "undefined" = Some entity.
Proof.
  destruct (createFileSystem_makes_folders
              (Dataverse.sample_workbench (Some Dataverse.folderless_schema))
              "site" "SubFolders" Dataverse.folderless_schema
              Sample.fresh
              (fst (snd (Dataverse.createFileSystem
                           (Dataverse.sample_workbench
                              (Some Dataverse.folderless_schema))
                           "site" (Sample.fresh, []))))
              []
              (snd (snd (Dataverse.createFileSystem
                           (Dataverse.sample_workbench
                              (Some Dataverse.folderless_schema))
                           "site" (Sample.fresh, []))))
              eq_refl eq_refl eq_refl eq_refl ltac:(discriminate)
              (or_introl eq_refl)
              (sample_parse_path "site/undefined/" true) eq_refl)
    as (site & entity & Hsite & _ & Hchild).
  exists site, entity.
  split; [exact (Hsite (Sample.vfs "/site") eq_refl)|exact Hchild].
Defined.

(** ** The survey endpoint *)

(** X19.  [getNpsSurveyEndpoint] answers with the empty string exactly
    when the lowered region is absent or is none of the nine regions it
    knows; every other answer is an [https] URL of a host under
    [ces.microsoftcloud.com].  The answer is one of the two European
    hosts exactly when the data boundary is [eu] and the region is one of
    the five commercial ones: the sovereign clouds ignore the data
    boundary. *)
Theorem survey_endpoint_by_region (toLowerCase : string -> string)
    (REGION : string) (m : gmap string string) (dataBoundary : option string) :
  let endpoint :=
    NPS.getNpsSurveyEndpoint toLowerCase REGION (Some m) dataBoundary in
  let region := option_map toLowerCase (m !! REGION) in
  (endpoint = "" <->
   forall r, region = Some r -> ~ In r (NPS.commercial ++ NPS.sovereign)) /\
  (forall r,
      region = Some r ->
      (endpoint <> "" ->
       exists host,
         endpoint =
         String.append "https://"
           (String.append host ".ces.microsoftcloud.com")) /\
      (endpoint = "https://europe.tip1.ces.microsoftcloud.com" \/
       endpoint = "https://europe.ces.microsoftcloud.com" <->
       dataBoundary = Some "eu" /\ In r NPS.commercial) /\
      (In r NPS.sovereign ->
       endpoint = "https://world.ces.microsoftcloud.com")).
Proof.
  intros endpoint region. subst endpoint region.
  unfold NPS.getNpsSurveyEndpoint.
  destruct (m !! REGION) as [raw|]; cbn [option_map].
  2:{ split; [split; [intros _ r [=]|reflexivity]|intros r [=]]. }
  generalize (toLowerCase raw). clear raw. intros r.
  assert (Heu : match dataBoundary with
                | Some b => String.eqb b "eu"
                | None => false
                end = true <-> dataBoundary = Some "eu").
  { destruct dataBoundary as [b|]; [|split; discriminate].
    destruct (String.eqb_spec b "eu") as [->|Hne]; split;
      congruence. }
  destruct (match dataBoundary with
            | Some b => String.eqb b "eu"
            | None => false
            end);
  repeat match goal with
         | |- context [String.eqb r ?x] =>
             destruct (String.eqb_spec r x) as [->|?]
         end;
  cbn [orb];
  (split;
   [split;
    [intros Hend r0 [= <-]; simpl; try discriminate Hend;
     intuition congruence
    |intros H; try reflexivity; exfalso; apply (H _ eq_refl); simpl; tauto]
   |intros r0 [= <-]; split; [|split];
    [intros Hne;
     first [now contradiction Hne
           |exists "europe.tip1"; reflexivity
           |exists "world.tip1"; reflexivity
           |exists "europe"; reflexivity
           |exists "world"; reflexivity]
    |simpl; intuition congruence
    |simpl; intuition congruence]]).
Qed.

Lemma survey_endpoint_by_region_witness :
  NPS.getNpsSurveyEndpoint (fun s => s) "region"
    (Some (<["region" := "mooncake"]> ∅)) (Some "eu") =
  "https://world.ces.microsoftcloud.com".
Proof.
  destruct (survey_endpoint_by_region (fun s => s) "region"
              (<["region" := "mooncake"]> ∅) (Some "eu"))
    as (_ & Hregion).
  destruct (Hregion "mooncake") as (_ & _ & Hsovereign);
    [vm_compute; reflexivity|].
  apply Hsovereign. simpl. tauto.
Defined.
